(** * Torsions: the PyMC torsion-fitting models

    A shallow embedding of the two model classes of the repository:

    - [torsionfit/model.py], class [TorsionFitModel]: the hierarchical model
      whose deterministic node [torsion_energy] sums precomputed cosine
      bases weighted by (optionally bit-masked) force constants;
    - [torsions/TorsionFitModel.py], class [TorsionFitModel]: the legacy model
      whose deterministic node [mm_potential] first pushes the latent values
      into a force-field parameter container ([update_param]).

    Conventions.
    - numpy float64 values are idealised as exact rationals ([Q]); only
      [+], [-], [*], [min] and comparison with literals are used on them.
    - Python exceptions are the [Err] results of the [result] monad.
    - A Python dict is a [gmap]; the parameter container, whose term lists
      are objects that several keys may share, is a dict of references into
      a store of term lists.
    - Functions of collaborators that are not part of the two files (numpy's
      [cos], PyMC's [random()], [TorsionScan.to_optimize],
      [par.set_phase_0], [frag.compute_energy]) are Section variables. *)

From Stdlib Require Import ZArith QArith Lia Ascii.
From stdpp Require Import base option list gmap strings pretty fin_maps.

Local Open Scope Z_scope.

(** ** Python results *)

Inductive error :=
| KeyError (key : string)
| MissingTorsion (key : string * string * string * string)
| IndexError
| TypeError
| ValueError.

Inductive result (A : Type) :=
| Ok (a : A)
| Err (e : error).
Arguments Ok {A} a.
Arguments Err {A} e.

#[global] Instance result_ret : MRet result := @Ok.
#[global] Instance result_bind : MBind result :=
  λ A B f m, match m with Ok a => f a | Err e => Err e end.

Definition is_Ok {A} (r : result A) : Prop := ∃ a, r = Ok a.

(** [d[k]] on a dict with string keys. *)
Definition getitem {V} (d : gmap string V) (k : string) : result V :=
  match d !! k with Some v => Ok v | None => Err (KeyError k) end.

(** [l[i]] on a Python sequence: a negative index counts from the end. *)
Definition py_index {A} (l : list A) (i : Z) : result A :=
  let n := Z.of_nat (length l) in
  let j := if i <? 0 then i + n else i in
  if (j <? 0) || (n <=? j) then Err IndexError
  else match l !! Z.to_nat j with Some x => Ok x | None => Err IndexError end.

(** [for x in xs: s = body(s, x)] with exceptions. *)
Fixpoint for_each {S A} (body : S → A → result S) (xs : list A) (s : S) : result S :=
  match xs with
  | [] => Ok s
  | x :: xs' => s' ← body s x; for_each body xs' s'
  end.

(** ** Torsion identifiers and their formatted names *)

Definition torsion : Type := string * string * string * string.

(** [p[0] + '_' + p[1] + '_' + p[2] + '_' + p[3]] *)
Definition torsion_name (p : torsion) : string :=
  let '(a, b, c, d) := p in
  (a +:+ "_" +:+ b +:+ "_" +:+ c +:+ "_" +:+ d)%string.

(** [tuple(reversed(p))] *)
Definition reversed (p : torsion) : torsion :=
  let '(a, b, c, d) := p in (d, c, b, a).

(** The last character of a formatted name; the keys the models build differ
    in it from family to family. *)
Fixpoint last_char (s : string) : option Ascii.ascii :=
  match s with
  | EmptyString => None
  | String a EmptyString => Some a
  | String _ s' => last_char s'
  end.

(** ** The bitmask table of [model.py] *)

Module Bitmask.

(** [itertools.product(pool, repeat=n)]: tuples in lexicographic order, the
    last position varying fastest. *)
Fixpoint product_repeat {A} (pool : list A) (n : nat) : list (list A) :=
  match n with
  | O => [[]]
  | S n' => x ← pool; (cons x) <$> product_repeat pool n'
  end.

(** [self.bitmasks = []; for i in itertools.product((0,1), repeat=6):
    self.bitmasks.append(i)] *)
Definition bitmasks : list (list Z) := product_repeat [0; 1] 6.

(** [K * mask]: elementwise product of the six force constants with a 0/1
    tuple of the table (numpy raises on shapes that do not broadcast). *)
Fixpoint vec_mul_mask (K : list Q) (mask : list Z) : result (list Q) :=
  match K, mask with
  | [], [] => Ok []
  | k :: K', b :: mask' => r ← vec_mul_mask K' mask'; Ok ((k * inject_Z b)%Q :: r)
  | _, _ => Err ValueError
  end.

(** The multiplicities, in order: [n = np.array([1., 2., 3., 4., 5., 6.])];
    column [m-1] of a cosine basis and component [m-1] of [K] belong to
    multiplicity [m]. *)
Definition n_multiplicities : list Z := [1; 2; 3; 4; 5; 6].

(** Decoding through the table: the multiplicities whose mask entry is 1. *)
Definition multiplicities_for (b : Z) : list Z :=
  match py_index bitmasks b with
  | Ok mask => filter (λ m, mask !! Z.to_nat (m - 1) = Some 1) n_multiplicities
  | Err _ => []
  end.

(** Encoding as the legacy model does it:
    [multiplicity_bitstrings[torsion_name] += 2**(m-1)] for each active [m]. *)
Definition bitstring_for (ms : list Z) : Z :=
  foldl (λ acc m, acc + 2 ^ (m - 1)) 0 ms.

(** The six bits of [b] in reverse order. *)
Definition reverse6 (b : Z) : Z :=
  foldl (λ acc i, if Z.testbit b (5 - i) then acc + 2 ^ i else acc) 0 [0; 1; 2; 3; 4; 5].

(** Bit [i] of [b], as 0 or 1. *)
Definition bit (b : Z) (i : Z) : Z := Z.b2z (Z.testbit b i).

(** The tuple at index [b] spells [b] in binary, most significant bit first. *)
Definition table_row_ok (b : Z) : bool :=
  match py_index bitmasks b with
  | Ok mask => bool_decide (mask = [bit b 5; bit b 4; bit b 3; bit b 2; bit b 1; bit b 0])
  | Err _ => false
  end.

End Bitmask.

(** ** PyMC nodes *)

(** The value of a node: a float, an integer or a float array. *)
Inductive value :=
| VFloat (x : Q)
| VInt (n : Z)
| VVec (v : list Q).

(** The two functions wrapped in [pymc.Lambda]:
    [np.exp(x)] and [np.exp(-2 * x)]. *)
Inductive lam := ExpOf | ExpMinus2Of.

(** A node carries the name it was created with; parents are referred to by
    the key under which the model stores them. *)
Inductive node :=
| Uniform (name : string) (lower upper : Q) (v : value)
| Normal (name : string) (mu : Q) (tau : string) (v : value)
| DiscreteUniform (name : string) (lower upper : Z) (v : value)
| Lambda (name : string) (f : lam) (parent : string)
| Deterministic (name : string)
| Observed (name : string) (mu tau : string) (size : list nat) (v : list Q).

(** [type(node) == pymc.CommonDeterministics.Lambda] *)
Definition is_Lambda (nd : node) : bool :=
  match nd with Lambda _ _ _ => true | _ => false end.

(** [node.value] of a stochastic node. *)
Definition node_value (nd : node) : option value :=
  match nd with
  | Uniform _ _ _ v | Normal _ _ _ v | DiscreteUniform _ _ _ v => Some v
  | _ => None
  end.

(** Assignment to [node.value]. *)
Definition set_value (nd : node) (v : value) : node :=
  match nd with
  | Uniform n lo up _ => Uniform n lo up v
  | Normal n mu tau _ => Normal n mu tau v
  | DiscreteUniform n lo up _ => DiscreteUniform n lo up v
  | _ => nd
  end.

Definition as_float (v : value) : result Q :=
  match v with VFloat x => Ok x | VInt n => Ok (inject_Z n) | VVec _ => Err TypeError end.
Definition as_int (v : value) : result Z :=
  match v with VInt n => Ok n | _ => Err TypeError end.
Definition as_vec (v : value) : result (list Q) :=
  match v with VVec l => Ok l | _ => Err TypeError end.

(** ** The force-field parameter container *)

(** [DihedralType(phi_k, per, phase)]; [per] is integral, so that [int(per)]
    is [per] itself. *)
Record DihedralType := mkDihedralType { phi_k : Q; per : Z; phase : Q }.

(** [param.dihedral_types] maps a torsion to a term-list object; the objects
    live in [store], and two keys may hold the same object. *)
Record ParameterSet := mkParameterSet {
  dihedral_types : gmap torsion nat;
  store : gmap nat (list DihedralType)
}.

(** [param.dihedral_types[p]]: the reference and the list it points to. *)
Definition dihedral_list (param : ParameterSet) (p : torsion)
  : result (nat * list DihedralType) :=
  match dihedral_types param !! p with
  | None => Err (MissingTorsion p)
  | Some l =>
      match store param !! l with
      | None => Err (MissingTorsion p)
      | Some ts => Ok (l, ts)
      end
  end.

(** What a reader of the container sees under key [p]. *)
Definition terms_of (param : ParameterSet) (p : torsion) : option (list DihedralType) :=
  l ← dihedral_types param !! p; store param !! l.

(** ** Float arrays *)

(** [min(a)] of a Python sequence: the first smallest element;
    raises on an empty one. *)
Definition py_min (a : list Q) : result Q :=
  match a with
  | [] => Err ValueError
  | x :: a' => Ok (foldl (λ m y, if Qlt_le_dec y m then y else m) x a')
  end.

(** [a + b] on arrays of one shape. *)
Fixpoint vec_add (a b : list Q) : result (list Q) :=
  match a, b with
  | [], [] => Ok []
  | x :: a', y :: b' => r ← vec_add a' b'; Ok ((x + y)%Q :: r)
  | _, _ => Err ValueError
  end.

(** [(K * row).sum()] for one row of a basis. *)
Fixpoint row_dot (K row : list Q) : result Q :=
  match K, row with
  | [], [] => Ok 0%Q
  | k :: K', c :: row' => r ← row_dot K' row'; Ok (k * c + r)%Q
  | _, _ => Err ValueError
  end.

(** [(K * basis).sum(1)] for a (frames x 6) basis. *)
Fixpoint weighted_row_sums (K : list Q) (basis : list (list Q)) : result (list Q) :=
  match basis with
  | [] => Ok []
  | row :: basis' =>
      x ← row_dot K row; r ← weighted_row_sums K basis'; Ok (x :: r)
  end.

(** [enumerate(l)] *)
Definition enumerate {A} (l : list A) : list (Z * A) :=
  imap (λ i x, (Z.of_nat i, x)) l.

(** ** [torsionfit/model.py] *)

Module Model.

(** What the model reads of a fragment ([torsionfit.QMDataBase]). *)
Record fragment := mkFragment {
  residue0 : string;                          (* '%s' % frag.topology._residues[0] *)
  n_frames : nat;
  phis : list (torsion * list (list Q));      (* frag.phis[t]: frames x dihedrals *)
  qm_energy : list Q;
  delta_energy : list Q
}.

Record TorsionFitModel := mkModel {
  pymc_parameters : gmap string node;
  frags : list fragment;
  platform : option string;
  rj : bool;
  sample_n5 : bool;
  continuous_phase : bool;
  sample_phase : bool;
  parameters_to_optimize : list torsion;
  bitmasks : list (list Z);
  cosines : list (list (torsion * list (list Q)))
}.

Definition offset_name (frag : fragment) : string := (residue0 frag +:+ "_offset")%string.
Definition K_name (tn : string) : string := (tn +:+ "_K")%string.
Definition bitstring_name (tn : string) : string := (tn +:+ "_multiplicity_bitstring")%string.
Definition log_sigma_k_name (tn : string) : string := ("log_sigma_k_" +:+ tn)%string.
Definition sigma_k_name (tn : string) : string := ("sigma_k_" +:+ tn)%string.
Definition precision_k_name (tn : string) : string := ("precision_k_" +:+ tn)%string.

(** *** The deterministic node [torsion_energy] (lines 154-170) *)

(** The force constants of torsion [name]: lines 162-165. *)
Definition force_constants (self : TorsionFitModel) (pymc_parameters : gmap string value)
    (name : string) : result (list Q) :=
  if rj self then
    K ← getitem pymc_parameters (K_name name) ≫= as_vec;
    b ← getitem pymc_parameters (bitstring_name name) ≫= as_int;
    mask ← py_index (bitmasks self) b;
    Bitmask.vec_mul_mask K mask
  else
    getitem pymc_parameters (K_name name) ≫= as_vec.

(** The inner loop, lines 159-166: the accumulator [Fourier_sum] of one
    fragment over the bases [cosines[i]]. *)
Definition fourier_sum (self : TorsionFitModel) (pymc_parameters : gmap string value)
    (mol : fragment) (cosines_i : list (torsion * list (list Q))) : result (list Q) :=
  for_each (λ Fourier_sum '(t, basis),
      K ← force_constants self pymc_parameters (torsion_name t);
      contribution ← weighted_row_sums K basis;
      vec_add Fourier_sum contribution)
    cosines_i (replicate (n_frames mol) 0%Q).

(** The body of the loop over fragments, lines 159-169.  [Fourier_sum_rel]
    is computed (so its look-ups can raise) but it is [Fourier_sum] that is
    appended to [mm]. *)
Definition torsion_energy_step (self : TorsionFitModel) (pymc_parameters : gmap string value)
    (mm : list Q) (imol : Z * fragment) : result (list Q) :=
  let '(i, mol) := imol in
  cosines_i ← py_index (cosines self) i;
  Fourier_sum ← fourier_sum self pymc_parameters mol cosines_i;
  lowest ← py_min Fourier_sum;
  let Fourier_sum_rel := (λ x, x - lowest)%Q <$> Fourier_sum in
  offset ← getitem pymc_parameters (offset_name mol) ≫= as_float;
  let Fourier_sum_rel := (λ x, x + offset)%Q <$> Fourier_sum_rel in
  Ok (mm ++ Fourier_sum).

Definition torsion_energy (self : TorsionFitModel) (pymc_parameters : gmap string value)
    : result (list Q) :=
  for_each (torsion_energy_step self pymc_parameters) (enumerate (frags self)) [].

(** The value the loop body holds in [Fourier_sum_rel] when it appends:
    the accumulator minus its minimum, plus the fragment's offset. *)
Definition fourier_sum_rel (self : TorsionFitModel) (pymc_parameters : gmap string value)
    (imol : Z * fragment) : result (list Q) :=
  let '(i, mol) := imol in
  cosines_i ← py_index (cosines self) i;
  Fourier_sum ← fourier_sum self pymc_parameters mol cosines_i;
  lowest ← py_min Fourier_sum;
  offset ← getitem pymc_parameters (offset_name mol) ≫= as_float;
  Ok ((λ x, x - lowest + offset)%Q <$> Fourier_sum).

(** The energy function as the specification words it: the concatenation,
    in fragment order, of the relative, offset profiles. *)
Definition torsion_energy_spec (self : TorsionFitModel) (pymc_parameters : gmap string value)
    : result (list Q) :=
  for_each (λ mm imol, rel ← fourier_sum_rel self pymc_parameters imol; Ok (mm ++ rel))
    (enumerate (frags self)) [].

(** An evaluation as the sampler performs it: the node is called on the
    current values and on the objects it closes over, and hands them back. *)
Record world := mkWorld {
  w_model : TorsionFitModel;
  w_values : gmap string value;
  w_param : ParameterSet
}.

Definition evaluate (w : world) : result (list Q) * world :=
  (torsion_energy (w_model w) (w_values w), w).


(** *** The constructor [__init__] (lines 28-182) *)

Section Init.

(** numpy's [cos] and [log] on floats. *)
Variable np_cos np_log : Q → Q.
(** [TorsionScan.to_optimize(param, stream)]: the torsions of the stream file. *)
Variable to_optimize : ParameterSet → option string → result (list torsion).
(** [par.set_phase_0(parameters_to_optimize, param)]: mutates [param]. *)
Variable set_phase_0 : list torsion → ParameterSet → result ParameterSet.
(** [node.random()]: the value PyMC draws from the prior of a stochastic. *)
Variable random : node → value.

(** The [frags] argument: a list, or one fragment that line 65 wraps. *)
Inductive frags_arg :=
| OneFragment (frag : fragment)
| Fragments (frags : list fragment).

Definition conflict_warning : string :=
  "You can't eliminate phase but have continuous phase. Changing continuous phase to False".

(** Lines 94-97. *)
Definition add_offset (params : gmap string node) (frag : fragment) : gmap string node :=
  let name := offset_name frag in
  <[name := Uniform name (-50) 50 (VFloat 0)]> params.

(** Lines 99-114, one torsion. *)
Definition add_torsion (acc : gmap string node * gmap string Z) (p : torsion)
    : gmap string node * gmap string Z :=
  let '(params, multiplicity_bitstrings) := acc in
  let tn := torsion_name p in
  let params :=
    <[log_sigma_k_name tn :=
        Uniform (log_sigma_k_name tn) (-46052 # 10000) (3453 # 1000)
          (VVec (np_log <$> ((λ x, x * (1 # 100))%Q <$> replicate 6 1%Q)))]> params in
  let params := <[sigma_k_name tn := Lambda (sigma_k_name tn) ExpOf (log_sigma_k_name tn)]> params in
  let params :=
    <[precision_k_name tn := Lambda (precision_k_name tn) ExpMinus2Of (log_sigma_k_name tn)]> params in
  let params :=
    <[K_name tn := Normal (K_name tn) 0 (precision_k_name tn) (VVec (replicate 6 0%Q))]> params in
  let multiplicity_bitstrings :=
    match multiplicity_bitstrings !! tn with
    | None => <[tn := 0]> multiplicity_bitstrings
    | Some _ => multiplicity_bitstrings
    end in
  (params, multiplicity_bitstrings).

(** Lines 117-120. *)
Definition add_bitstrings (multiplicity_bitstrings : gmap string Z) (params : gmap string node)
    : gmap string node :=
  map_fold (λ tn v params,
      let name := bitstring_name tn in
      <[name := DiscreteUniform name 0 63 (VInt v)]> params)
    params multiplicity_bitstrings.


(** The keys lines 130-136 and 179-182 write after that loop. *)
Definition late_keys : list string :=
  ["log_sigma"; "sigma"; "precision"; "torsion_energy"; "qm_fit"].

(** The test of line 125 on a key and its node. *)
Definition randomized (parameter : string) (nd : node) : bool :=
  negb (is_Lambda nd) && negb (bool_decide (String.substring 0 11 parameter = "log_sigma_k")).

(** Lines 124-127: the nodes after the loop, and what the logger reports. *)
Definition randomize (params : gmap string node) : gmap string node :=
  map_imap (λ parameter nd,
      Some (if randomized parameter nd then set_value nd (random nd) else nd)) params.

Definition randomize_log (params : gmap string node) : list (string * value) :=
  omap (λ '(parameter, nd),
      if randomized parameter nd then Some (parameter, random nd) else None)
    (map_to_list params).

(** Lines 130-136. *)
Definition add_noise (params : gmap string node) : gmap string node :=
  let params := <["log_sigma" := Uniform "log_sigma" (-10) 3 (VFloat (np_log (1 # 100)))]> params in
  let params := <["sigma" := Lambda "sigma" ExpOf "log_sigma"]> params in
  <["precision" := Lambda "precision" ExpMinus2Of "log_sigma"]> params.

(** Line 151: [(1 + np.cos(phis[:, np.newaxis] * n[:, np.newaxis])).sum(-1)],
    a (frames x 6) array. *)
Definition cosine_basis (phis_t : list (list Q)) : list (list Q) :=
  (λ angles,
     (λ m, foldl Qplus 0%Q ((λ angle, 1 + np_cos (angle * inject_Z m))%Q <$> angles))
       <$> Bitmask.n_multiplicities) <$> phis_t.

Record constructed := mkConstructed {
  c_model : TorsionFitModel;
  c_param : ParameterSet;                 (* the container after construction *)
  c_warnings : list string;               (* warnings.warn *)
  c_log : list (string * value)           (* logger().info *)
}.

Definition init (param : ParameterSet) (frags : frags_arg) (stream platform : option string)
    (param_to_opt : option (list torsion))
    (rj sample_n5 continuous_phase sample_phase init_random : bool) : result constructed :=
  let frags := match frags with OneFragment frag => [frag] | Fragments l => l end in
  parameters_to_optimize ←
    match param_to_opt with
    | Some (p :: l) => Ok (p :: l)
    | _ => to_optimize param stream
    end;
  let '(warned, self_continuous_phase) :=
    if negb sample_phase && continuous_phase then ([conflict_warning], false)
    else ([], continuous_phase) in
  param ← (if negb sample_phase then set_phase_0 parameters_to_optimize param else Ok param);
  let multiplicities : list Z := if sample_n5 then [1; 2; 3; 4; 5; 6] else [1; 2; 3; 4; 6] in
  let params := foldl add_offset ∅ frags in
  let '(params, multiplicity_bitstrings) := foldl add_torsion (params, ∅) parameters_to_optimize in
  let params := if rj then add_bitstrings multiplicity_bitstrings params else params in
  let logged := if init_random then randomize_log params else [] in
  let params := if init_random then randomize params else params in
  let params := add_noise params in
  let cosines := (λ frag, (λ '(t, phis_t), (t, cosine_basis phis_t)) <$> phis frag) <$> frags in
  let size := foldr Nat.add O ((λ i, length (qm_energy i)) <$> frags) in
  let residual_energy := foldl (λ acc frag, acc ++ delta_energy frag) [] frags in
  let params := <["torsion_energy" := Deterministic "torsion_energy"]> params in
  let params :=
    <["qm_fit" := Observed "qm_fit" "torsion_energy" "precision" [size] residual_energy]> params in
  Ok {| c_model := {| pymc_parameters := params;
                      frags := frags;
                      platform := platform;
                      rj := rj;
                      sample_n5 := sample_n5;
                      continuous_phase := self_continuous_phase;
                      sample_phase := sample_phase;
                      parameters_to_optimize := parameters_to_optimize;
                      bitmasks := Bitmask.bitmasks;
                      cosines := cosines |};
        c_param := param;
        c_warnings := warned;
        c_log := logged |}.

End Init.

End Model.

(** ** [torsions/TorsionFitModel.py] *)

Module Legacy.

(** What the legacy model reads of a fragment ([TorsionScanSet]); [geometry]
    stands for the scan data that [compute_energy] evaluates. *)
Record fragment := mkFragment {
  geometry : list (list Q);
  mm_energy : list Q;
  qm_energy : list Q
}.

Record TorsionFitModel := mkModel {
  pymc_parameters : gmap string node;
  frags : list fragment;
  parameters_to_optimize : list torsion
}.

(** [str(m)] *)
Definition str (m : Z) : string := pretty m.

Definition K_name (tn : string) (m : Z) : string := (tn +:+ "_" +:+ str m +:+ "_K")%string.
Definition Phase_name (tn : string) (m : Z) : string := (tn +:+ "_" +:+ str m +:+ "_Phase")%string.
Definition bitstring_name (tn : string) : string := (tn +:+ "_multiplicity_bitstring")%string.

(** [multiplicities = [1, 2, 3, 4, 6]] *)
Definition multiplicities : list Z := [1; 2; 3; 4; 6].

(** [pymc_variable.value], read as a number. *)
Definition value_of (nd : node) : result value :=
  match node_value nd with Some v => Ok v | None => Err TypeError end.

(** *** [update_param] (lines 101-128) *)

(** One iteration of the loop of lines 114-128, on the term
    [param.dihedral_types[p][i]].  [2**(m-1)] is a float when [m < 1], and
    [int & float] raises. *)
Definition update_term (params : gmap string node) (tn : string) (multiplicity_bitstring : Z)
    (t : DihedralType) : result DihedralType :=
  let m := per t in
  if m <? 1 then Err TypeError
  else
    let multiplicity_bitmask := 2 ^ (m - 1) in
    if negb (Z.land multiplicity_bitstring multiplicity_bitmask =? 0) then
      if m =? 5 then Ok t
      else
        pymc_variable ← getitem params (K_name tn m);
        k ← value_of pymc_variable ≫= as_float;
        pymc_variable ← getitem params (Phase_name tn m);
        ph ← value_of pymc_variable ≫= as_float;
        Ok {| phi_k := k; per := per t; phase := ph |}
    else
      Ok {| phi_k := 0; per := per t; phase := phase t |}.

(** The loop over [range(len(param.dihedral_types[p]))]: iteration [i] reads
    and writes term [i] only. *)
Fixpoint update_terms (params : gmap string node) (tn : string) (multiplicity_bitstring : Z)
    (ts : list DihedralType) : result (list DihedralType) :=
  match ts with
  | [] => Ok []
  | t :: ts' =>
      t' ← update_term params tn multiplicity_bitstring t;
      r ← update_terms params tn multiplicity_bitstring ts';
      Ok (t' :: r)
  end.

(** The body of the loop over [self.parameters_to_optimize]: the terms are
    written through the list object that key [p] holds. *)
Definition update_torsion (params : gmap string node) (param : ParameterSet) (p : torsion)
    : result ParameterSet :=
  let tn := torsion_name p in
  nd ← getitem params (bitstring_name tn);
  multiplicity_bitstring ← value_of nd ≫= as_int;
  '(l, ts) ← dihedral_list param p;
  ts' ← update_terms params tn multiplicity_bitstring ts;
  Ok {| dihedral_types := dihedral_types param; store := <[l := ts']> (store param) |}.

Definition update_param (self : TorsionFitModel) (param : ParameterSet) : result ParameterSet :=
  for_each (update_torsion (pymc_parameters self)) (parameters_to_optimize self) param.

(** *** What [update_param] needs to run through *)

Definition scalar (nd : node) : bool :=
  match node_value nd with
  | Some (VFloat _) | Some (VInt _) => true
  | _ => false
  end.

Definition has_scalar (params : gmap string node) (k : string) : bool :=
  match params !! k with Some nd => scalar nd | None => false end.

(** The current value of the bitstring latent of torsion name [tn]. *)
Definition bitstring_of (params : gmap string node) (tn : string) : option Z :=
  match params !! bitstring_name tn with
  | Some nd => match node_value nd with Some (VInt b) => Some b | _ => None end
  | None => None
  end.

(** The latents the constructor creates for a torsion are there: a bitstring
    within its support, and a force constant and a phase per multiplicity. *)
Definition latents_ready (params : gmap string node) (p : torsion) : bool :=
  let tn := torsion_name p in
  match bitstring_of params tn with
  | Some b => (0 <=? b) && (b <? 64)
  | None => false
  end
  && forallb (λ m, has_scalar params (K_name tn m) && has_scalar params (Phase_name tn m))
       multiplicities.

(** The container holds a term list for the torsion, of periodicities >= 1. *)
Definition terms_ready (param : ParameterSet) (p : torsion) : bool :=
  match dihedral_list param p with
  | Ok (_, ts) => forallb (λ t, 1 <=? per t) ts
  | Err _ => false
  end.

Definition ready (self : TorsionFitModel) (param : ParameterSet) : bool :=
  forallb (λ p, latents_ready (pymc_parameters self) p && terms_ready param p)
    (parameters_to_optimize self).

(** No two optimized torsions hold the same term-list object. *)
Definition distinct_objects (param : ParameterSet) (ps : list torsion) : Prop :=
  NoDup ((λ p, dihedral_types param !! p) <$> ps).

(** Bit [m-1] of the bitstring is set. *)
Definition bit_set (b m : Z) : bool := negb (Z.land b (2 ^ (m - 1)) =? 0).

(** A set bit without a term: multiplicity [m] is switched on for [p] and the
    container holds no term of that multiplicity under [p]. *)
Definition missing_term (params : gmap string node) (param : ParameterSet)
    (p : torsion) (m : Z) : Prop :=
  ∃ b ts, bitstring_of params (torsion_name p) = Some b ∧ bit_set b m = true
          ∧ terms_of param p = Some ts ∧ m ∉ (per <$> ts).

(** The shape of a container: its keys and the multiplicities of its lists. *)
Definition same_shape (param param' : ParameterSet) : Prop :=
  dihedral_types param' = dihedral_types param ∧
  ∀ l : nat, fmap per <$> store param' !! l = fmap per <$> store param !! l.


(** *** [add_missing] (lines 84-99) *)

Definition add_missing_torsion (param : ParameterSet) (p : torsion) : result ParameterSet :=
  '(l, ts) ← dihedral_list param p;
  let pers := per <$> ts in
  let ts' :=
    foldl (λ ts j, if bool_decide (j ∈ pers) then ts else ts ++ [mkDihedralType 0 j 0])
      ts multiplicities in
  Ok {| dihedral_types := dihedral_types param; store := <[l := ts']> (store param) |}.

Definition add_missing (self : TorsionFitModel) (param : ParameterSet) : result ParameterSet :=
  for_each add_missing_torsion (parameters_to_optimize self) param.

(** [DihedralType(0, j, 0)], the term line 99 appends. *)
Definition zero_term (j : Z) : DihedralType := mkDihedralType 0 j 0.

(** A container grown from [param] by appending: the same keys, and every
    list followed by zero terms of multiplicities from [multiplicities] that
    the list did not have, each at most once. *)
Definition grown_from (param param' : ParameterSet) : Prop :=
  dihedral_types param' = dihedral_types param ∧
  ∀ (l : nat) ts, store param !! l = Some ts →
    ∃ extra, store param' !! l = Some (ts ++ (zero_term <$> extra)) ∧
             extra ⊆ multiplicities ∧
             (∀ j, j ∈ extra → j ∉ per <$> ts) ∧
             NoDup extra.

(** *** Readings of the constructor's loop (lines 31-38) *)

(** What line 36 makes of the bitstring value [acc] of a torsion over the
    multiplicities [ms]: [2**(m-1)] is added for each [m] that a term has. *)
Definition bits_from (ts : list DihedralType) (acc : Z) (ms : list Z) : Z :=
  foldl (λ acc m, if bool_decide (m ∈ per <$> ts) then acc + 2 ^ (m - 1) else acc) acc ms.

Definition present_bits (ts : list DihedralType) : Z := bits_from ts 0 multiplicities.

(** PyMC accepts a stochastic only with an initial value inside its support:
    the force constants the constructor copies (lines 35-37) are to lie in
    the support [0, 20] of their latents. *)
Definition in_support (param : ParameterSet) (ps : list torsion) : Prop :=
  ∀ p ts t, p ∈ ps → terms_of param p = Some ts → t ∈ ts → per t ∈ multiplicities →
            (0 <= phi_k t)%Q ∧ (phi_k t <= 20)%Q.

(** The keys lines 60-64 and 79-82 write after the latents. *)
Definition late_keys : list string :=
  ["log_sigma"; "sigma"; "precision"; "mm_potential"; "qm_fit"].

(** *** The deterministic node [mm_potential] (lines 66-73) *)

Section Potential.

(** [frag.compute_energy(param)]: the fragment with its [mm_energy] set from
    the container. *)
Variable compute_energy : fragment → ParameterSet → result fragment.

Definition mm_potential (self : TorsionFitModel) (param : ParameterSet)
    : result (list Q * TorsionFitModel * ParameterSet) :=
  param ← update_param self param;
  '(frags, mm_energy) ←
    for_each (λ '(frags, mm_energy) frag,
        frag ← compute_energy frag param;
        Ok (frags ++ [frag], mm_energy ++ Legacy.mm_energy frag))
      (frags self) ([], []);
  Ok (mm_energy,
      {| pymc_parameters := pymc_parameters self;
         frags := frags;
         parameters_to_optimize := parameters_to_optimize self |},
      param).

End Potential.

(** *** The constructor [__init__] (lines 18-82) *)

Section Init.

Variable np_log : Q → Q.
(** [TorsionScanSet.to_optimize(param, stream)] *)
Variable to_optimize : ParameterSet → string → result (list torsion).

(** The float literal [3.141592653589793]. *)
Definition pi_literal : Q := 3141592653589793 # 1000000000000000.

(** Lines 32-40: the force-constant latent of multiplicity [m], and whether a
    term of that multiplicity was found. *)
Definition initial_K (name : string) (ts : list DihedralType) (m : Z) : node * bool :=
  match list_find (λ t, per t = m) ts with
  | Some (_, t) => (Uniform name 0 20 (VFloat (phi_k t)), true)
  | None => (Uniform name 0 20 (VFloat 0), false)
  end.

(** Lines 42-53: the first term of multiplicity [m] whose phase is 0 or the
    literal decides the phase latent. *)
Definition initial_Phase (name : string) (ts : list DihedralType) (m : Z) : node :=
  match list_find (λ t, per t = m ∧
                        (Qeq_bool (phase t) 0 || Qeq_bool (phase t) pi_literal = true)) ts with
  | Some (_, t) =>
      if Qeq_bool (phase t) 0 then DiscreteUniform name 0 1 (VInt 0)
      else DiscreteUniform name 0 1 (VInt 1)
  | None => DiscreteUniform name 0 1 (VInt 0)
  end.

(** Lines 31-53, one multiplicity of one torsion. *)
Definition add_multiplicity (ts : list DihedralType) (tn : string)
    (acc : gmap string node * gmap string Z) (m : Z) : gmap string node * gmap string Z :=
  let '(params, multiplicity_bitstrings) := acc in
  let '(k, found) := initial_K (K_name tn m) ts m in
  let multiplicity_bitstrings :=
    if found then
      <[tn := default 0 (multiplicity_bitstrings !! tn) + 2 ^ (m - 1)]> multiplicity_bitstrings
    else multiplicity_bitstrings in
  let params := <[K_name tn m := k]> params in
  let params := <[Phase_name tn m := initial_Phase (Phase_name tn m) ts m]> params in
  (params, multiplicity_bitstrings).

(** Lines 26-53, one torsion. *)
Definition add_torsion (param : ParameterSet) (acc : gmap string node * gmap string Z)
    (p : torsion) : result (gmap string node * gmap string Z) :=
  let '(params, multiplicity_bitstrings) := acc in
  let tn := torsion_name p in
  let multiplicity_bitstrings :=
    match multiplicity_bitstrings !! tn with
    | None => <[tn := 0]> multiplicity_bitstrings
    | Some _ => multiplicity_bitstrings
    end in
  '(_, ts) ← dihedral_list param p;
  Ok (foldl (add_multiplicity ts tn) (params, multiplicity_bitstrings) multiplicities).

(** Lines 55-58. *)
Definition add_bitstrings (multiplicity_bitstrings : gmap string Z) (params : gmap string node)
    : gmap string node :=
  map_fold (λ tn v params,
      let name := bitstring_name tn in
      <[name := DiscreteUniform name 0 63 (VInt v)]> params)
    params multiplicity_bitstrings.

(** Lines 60-64. *)
Definition add_noise (params : gmap string node) : gmap string node :=
  let params := <["log_sigma" := Uniform "log_sigma" (-10) 0 (VFloat (np_log (1 # 100)))]> params in
  let params := <["sigma" := Lambda "sigma" ExpOf "log_sigma"]> params in
  <["precision" := Lambda "precision" ExpMinus2Of "log_sigma"]> params.

(** The latents and bitstrings after the loop of lines 26-53. *)
Definition build_latents (param : ParameterSet) (parameters_to_optimize : list torsion)
    : result (gmap string node * gmap string Z) :=
  for_each (add_torsion param) parameters_to_optimize (∅, ∅).

Definition init (param : ParameterSet) (stream : string) (frags : list fragment)
    : result TorsionFitModel :=
  parameters_to_optimize ← to_optimize param stream;
  '(params, multiplicity_bitstrings) ← build_latents param parameters_to_optimize;
  let params := add_bitstrings multiplicity_bitstrings params in
  let params := add_noise params in
  let size := (λ i, length (mm_energy i)) <$> frags in
  let qm_potential := foldl (λ acc frag, acc ++ qm_energy frag) [] frags in
  let params := <["mm_potential" := Deterministic "mm_potential"]> params in
  let params :=
    <["qm_fit" := Observed "qm_fit" "mm_potential" "precision" size qm_potential]> params in
  Ok {| pymc_parameters := params;
        frags := frags;
        parameters_to_optimize := parameters_to_optimize |}.

(** The initial value of the bitstring latent of a torsion, if it has one. *)
Definition initial_bitstring (self : TorsionFitModel) (p : torsion) : option value :=
  nd ← pymc_parameters self !! bitstring_name (torsion_name p); node_value nd.

End Init.

End Legacy.

(** ** Concrete models and containers *)

Module Examples.

Definition t0 : torsion := ("HGA2", "CG321", "CG331", "HGA3")%string.

(** One fragment of five frames, scanned at 0, pi/2, pi, 3pi/2, 2pi: row [f],
    column [m-1] holds [1 + cos(m * angle_f)]. *)
Definition basis0 : list (list Q) :=
  [ [2; 2; 2; 2; 2; 2];
    [1; 0; 1; 2; 1; 0];
    [0; 2; 0; 2; 0; 2];
    [1; 0; 1; 2; 1; 0];
    [2; 2; 2; 2; 2; 2] ]%Q.

Definition frag0 : Model.fragment :=
  Model.mkFragment "PRL" 5 [] [0; 1; 3; 1; 0]%Q [0; 1; 3; 1; 0]%Q.

Definition model0 (rj : bool) : Model.TorsionFitModel :=
  Model.mkModel ∅ [frag0] None rj false false false [t0] Bitmask.bitmasks [[(t0, basis0)]].

(** Multiplicity 1 with force constant 2, offset 5. *)
Definition values0 : gmap string value :=
  <["HGA2_CG321_CG331_HGA3_K" := VVec [2; 0; 0; 0; 0; 0]%Q]>
    (<["PRL_offset" := VFloat 5]> ∅).

(** Six distinct sampled force constants and the bitstring 0b000011. *)
Definition values1 : gmap string value :=
  <["HGA2_CG321_CG331_HGA3_K" := VVec [7; 8; 9; 10; 11; 12]%Q]>
    (<["HGA2_CG321_CG331_HGA3_multiplicity_bitstring" := VInt 3]>
       (<["PRL_offset" := VFloat 5]> ∅)).

(** The values of [values0] without the offset of the fragment. *)
Definition values_no_offset : gmap string value :=
  <["HGA2_CG321_CG331_HGA3_K" := VVec [2; 0; 0; 0; 0; 0]%Q]> ∅.

(** A fragment without frames, and a model of it alone. *)
Definition frag_empty : Model.fragment := Model.mkFragment "EMP" 0 [] [] [].

Definition model_empty : Model.TorsionFitModel :=
  Model.mkModel ∅ [frag_empty] None false false false false [] Bitmask.bitmasks [[]].

(** Collaborators of the constructor of [model.py], for running it: a cosine
    and a logarithm that return 0, a stream that lists [t0], a
    [set_phase_0] that finds nothing to change, and a sampler that draws 1. *)
Definition stub_cos : Q → Q := λ _, 0%Q.
Definition stub_to_optimize_opt : ParameterSet → option string → result (list torsion) :=
  λ _ _, Ok [t0].
Definition stub_set_phase_0 : list torsion → ParameterSet → result ParameterSet :=
  λ _ param, Ok param.
Definition stub_random (nd : node) : value :=
  match nd with
  | DiscreteUniform _ _ _ _ => VInt 1
  | Normal _ _ _ _ => VVec (replicate 6 1%Q)
  | _ => VFloat 1
  end.

(** A container that stores the two orientations of [t0] as two term lists,
    each with one term of multiplicity 2. *)
Definition param0 : ParameterSet :=
  {| dihedral_types := <[t0 := 1%nat]> (<[reversed t0 := 2%nat]> ∅);
     store := <[1%nat := [mkDihedralType 3 2 0]]> (<[2%nat := [mkDihedralType 3 2 0]]> ∅) |}.

(** A container whose only term for [t0] has force constant 0. *)
Definition param_zero : ParameterSet :=
  {| dihedral_types := <[t0 := 1%nat]> ∅;
     store := <[1%nat := [mkDihedralType 0 2 0]]> ∅ |}.

(** A container with terms of multiplicities 1, 5, 5 and 2 for [t0]. *)
Definition param5 : ParameterSet :=
  {| dihedral_types := <[t0 := 1%nat]> ∅;
     store := <[1%nat := [mkDihedralType 1 1 0; mkDihedralType 2 5 (1 # 2);
                          mkDihedralType 4 5 0; mkDihedralType 3 2 0]]> ∅ |}.

Definition stub_log : Q → Q := λ _, 0%Q.
Definition stub_to_optimize : ParameterSet → string → result (list torsion) := λ _ _, Ok [t0].

Definition legacy_frag0 : Legacy.fragment := Legacy.mkFragment [[0]]%Q [] [0]%Q.

(** A sampler move: the value of latent [k] becomes [v]. *)
Definition sample (k : string) (v : value) (self : Legacy.TorsionFitModel) : Legacy.TorsionFitModel :=
  {| Legacy.pymc_parameters := alter (λ nd, set_value nd v) k (Legacy.pymc_parameters self);
     Legacy.frags := Legacy.frags self;
     Legacy.parameters_to_optimize := Legacy.parameters_to_optimize self |}.

Definition legacy_built (param : ParameterSet) : Legacy.TorsionFitModel :=
  match Legacy.init stub_log stub_to_optimize param "PRL.str" [legacy_frag0] with
  | Ok self => self
  | Err _ => Legacy.mkModel ∅ [] []
  end.

(** The legacy model built on [param0], after the sampler has switched on
    multiplicities 1 and 2 and moved two force constants and a phase. *)
Definition legacy0 : Legacy.TorsionFitModel :=
  sample "HGA2_CG321_CG331_HGA3_multiplicity_bitstring" (VInt 3)
    (sample "HGA2_CG321_CG331_HGA3_1_K" (VFloat 7)
       (sample "HGA2_CG321_CG331_HGA3_2_K" (VFloat 5)
          (sample "HGA2_CG321_CG331_HGA3_2_Phase" (VInt 1) (legacy_built param0)))).

(** The legacy model built on [param5], with bits 1 and 5 on (value 17). *)
Definition legacy5 : Legacy.TorsionFitModel :=
  sample "HGA2_CG321_CG331_HGA3_multiplicity_bitstring" (VInt 17)
    (sample "HGA2_CG321_CG331_HGA3_1_K" (VFloat 7)
       (sample "HGA2_CG321_CG331_HGA3_1_Phase" (VInt 1) (legacy_built param5))).

(** An evaluator that reports, per frame, the sum of the force constants the
    container holds for [t0]. *)
Definition stub_compute_energy (frag : Legacy.fragment) (param : ParameterSet)
    : result Legacy.fragment :=
  match terms_of param t0 with
  | Some ts =>
      Ok (Legacy.mkFragment (Legacy.geometry frag)
            ((λ _, foldl Qplus 0%Q (phi_k <$> ts)) <$> Legacy.geometry frag)
            (Legacy.qm_energy frag))
  | None => Err (MissingTorsion t0)
  end.

(** [param0] as [update_param] of [legacy0] leaves it: the list of [t0]
    holds the sampled force constant and phase. *)
Definition param0_synced : ParameterSet :=
  {| dihedral_types := dihedral_types param0;
     store := <[1%nat := [mkDihedralType 5 2 1]]> (store param0) |}.

(** [param0] as [add_missing] of [legacy0] leaves it. *)
Definition param0_completed : ParameterSet :=
  {| dihedral_types := dihedral_types param0;
     store := <[1%nat := [mkDihedralType 3 2 0; mkDihedralType 0 1 0; mkDihedralType 0 3 0;
                          mkDihedralType 0 4 0; mkDihedralType 0 6 0]]> (store param0) |}.


(** What the constructor of [model.py] returns on [param0] and the fragment
    [frag0], with phases sampled and the stream read for the torsions. *)
Definition constructed0 (rj init_random : bool) : Model.constructed :=
  match Model.init stub_cos stub_log stub_to_optimize_opt stub_set_phase_0 stub_random
          param0 (Model.Fragments [frag0]) None None None rj false false true init_random with
  | Ok c => c
  | Err _ => Model.mkConstructed (model0 rj) param0 [] []
  end.

(** [legacy0] after one evaluation of [mm_potential] with
    [stub_compute_energy]: its fragment holds the computed energy. *)
Definition legacy0_evaluated : Legacy.TorsionFitModel :=
  {| Legacy.pymc_parameters := Legacy.pymc_parameters legacy0;
     Legacy.frags := [Legacy.mkFragment [[0]]%Q [5]%Q [0]%Q];
     Legacy.parameters_to_optimize := Legacy.parameters_to_optimize legacy0 |}.

(** [param0_completed] as [update_param] of [legacy0] leaves it. *)
Definition param0_completed_synced : ParameterSet :=
  {| dihedral_types := dihedral_types param0;
     store := <[1%nat := [mkDihedralType 5 2 1; mkDihedralType 7 1 0; mkDihedralType 0 3 0;
                          mkDihedralType 0 4 0; mkDihedralType 0 6 0]]> (store param0) |}.

End Examples.

(** * Properties *)

(** ** The bitmask table *)

Section BitmaskFacts.
Import Bitmask.

Lemma in_range_64 (b : Z) : 0 ≤ b < 64 → b ∈ (Z.of_nat <$> seq 0 64).
Proof.
  intros Hb. apply list_elem_of_fmap. exists (Z.to_nat b). split; [lia|].
  apply elem_of_seq. lia.
Qed.

Lemma bitmasks_lookup (b : Z) :
  0 ≤ b < 64 →
  py_index bitmasks b = Ok [bit b 5; bit b 4; bit b 3; bit b 2; bit b 1; bit b 0].
Proof.
  intros Hb.
  assert (Hall : forallb table_row_ok (Z.of_nat <$> seq 0 64) = true) by (vm_compute; reflexivity).
  rewrite forallb_forall in Hall.
  specialize (Hall b). rewrite <- list_elem_of_In in Hall.
  specialize (Hall (in_range_64 b Hb)). unfold table_row_ok in Hall.
  destruct (py_index bitmasks b) as [mask|]; [|discriminate].
  apply bool_decide_eq_true in Hall. by subst.
Qed.

(** Encoding the decoded multiplicities reverses the six bits. *)
Lemma roundtrip_reverses_bits (b : Z) :
  0 ≤ b < 64 → bitstring_for (multiplicities_for b) = reverse6 b.
Proof.
  intros Hb.
  assert (Hall : forallb (λ b, bitstring_for (multiplicities_for b) =? reverse6 b)
                   (Z.of_nat <$> seq 0 64) = true) by (vm_compute; reflexivity).
  rewrite forallb_forall in Hall.
  specialize (Hall b). rewrite <- list_elem_of_In in Hall.
  specialize (Hall (in_range_64 b Hb)). lia.
Qed.

(** C3: the round trip through the table of [model.py] and the legacy
    encoding [2**(m-1)] does not give the bitstring back: the bitstring 1
    decodes to multiplicity 6 alone, which encodes to 32. *)
Theorem bitstring_roundtrip_of_1 :
  multiplicities_for 1 = [6] ∧ bitstring_for (multiplicities_for 1) = 32.
Proof. split; reflexivity. Qed.

End BitmaskFacts.

(** ** The energy function of [model.py] *)

Section EnergyFacts.
Import Model Examples.

(** C2: with reversible jump and the bitstring 0b000011, the masked force
    constants keep components 4 and 5 (multiplicities 5 and 6) and zero
    components 0 and 1 (multiplicities 1 and 2): the table row of a
    bitstring holds its most significant bit first. *)
Theorem masked_K_of_bitstring_3 :
  force_constants (model0 true) values1 (torsion_name t0)
  = Ok [0; 0; 0; 0; 11; 12]%Q.
Proof. reflexivity. Qed.

(** C1: on one fragment with the accumulator [4, 2, 0, 2, 4] and offset 5,
    [torsion_energy] returns the accumulator itself, of minimum 0; the
    relative, offset profile [9, 7, 5, 7, 9] of minimum 5 is computed in
    [Fourier_sum_rel] and dropped. *)
Theorem torsion_energy_returns_raw_sum :
  torsion_energy (model0 false) values0 = Ok [4; 2; 0; 2; 4]%Q
  ∧ (torsion_energy (model0 false) values0 ≫= py_min) = Ok 0%Q
  ∧ fourier_sum_rel (model0 false) values0 (0, frag0) = Ok [9; 7; 5; 7; 9]%Q
  ∧ torsion_energy_spec (model0 false) values0 = Ok [9; 7; 5; 7; 9]%Q.
Proof. repeat split; reflexivity. Qed.

End EnergyFacts.

(** ** The result monad and loops *)

Lemma bind_Ok {A B} (m : result A) (f : A → result B) (b : B) :
  m ≫= f = Ok b → ∃ a, m = Ok a ∧ f a = Ok b.
Proof. destruct m as [a|e]; [eauto | discriminate]. Qed.

Lemma getitem_Ok {V} (d : gmap string V) (k : string) (v : V) :
  getitem d k = Ok v ↔ d !! k = Some v.
Proof. unfold getitem. destruct (d !! k); split; intros; simplify_eq; done. Qed.

(** A loop whose body preserves an invariant preserves it. *)
Lemma for_each_invariant {S A} (P : S → Prop) (body : S → A → result S) (xs : list A) :
  (∀ s x s', x ∈ xs → P s → body s x = Ok s' → P s') →
  ∀ s s', P s → for_each body xs s = Ok s' → P s'.
Proof.
  induction xs as [|x xs IH]; intros Hbody s s' Hs Hrun; simpl in Hrun.
  - by simplify_eq.
  - apply bind_Ok in Hrun as (s1 & H1 & Hrest).
    eapply IH; [|eapply Hbody; [left|exact Hs|exact H1]|exact Hrest].
    intros s2 y s3 Hy. apply Hbody. by right.
Qed.

(** A loop whose body succeeds under an invariant it preserves succeeds. *)
Lemma for_each_Ok {S A} (P : S → Prop) (body : S → A → result S) (xs : list A) :
  (∀ s x, x ∈ xs → P s → ∃ s', body s x = Ok s' ∧ P s') →
  ∀ s, P s → ∃ s', for_each body xs s = Ok s' ∧ P s'.
Proof.
  induction xs as [|x xs IH]; intros Hbody s Hs; simpl.
  - eauto.
  - destruct (Hbody s x) as (s1 & H1 & Hs1); [left|done|].
    rewrite H1. simpl. apply IH; [|done].
    intros s2 y Hy. apply Hbody. by right.
Qed.

(** ** Bits *)

Lemma land_pow2 (b k : Z) :
  0 ≤ k → Z.land b (2 ^ k) = if Z.testbit b k then 2 ^ k else 0.
Proof.
  intros Hk. apply Z.bits_inj'. intros n Hn.
  rewrite Z.land_spec, Z.pow2_bits_eqb by done.
  destruct (Z.eqb_spec k n) as [->|Hne].
  - destruct (Z.testbit b n) eqn:Hb; simpl.
    + rewrite Z.pow2_bits_eqb, Z.eqb_refl; done.
    + by rewrite Z.bits_0.
  - rewrite andb_false_r. destruct (Z.testbit b k).
    + rewrite Z.pow2_bits_eqb by done. symmetry. by apply Z.eqb_neq.
    + by rewrite Z.bits_0.
Qed.

Lemma bit_set_testbit (b m : Z) :
  1 ≤ m → Legacy.bit_set b m = Z.testbit b (m - 1).
Proof.
  intros Hm. unfold Legacy.bit_set. rewrite land_pow2 by lia.
  destruct (Z.testbit b (m - 1)); [|done].
  assert (0 < 2 ^ (m - 1)) by (apply Z.pow_pos_nonneg; lia).
  destruct (Z.eqb_spec (2 ^ (m - 1)) 0); [lia|done].
Qed.

Lemma bit_set_small (b m : Z) :
  0 ≤ b < 64 → 1 ≤ m → Legacy.bit_set b m = true → m ≤ 6.
Proof.
  intros Hb Hm. rewrite bit_set_testbit by done. intros Hbit.
  destruct (Z_le_gt_dec m 6) as [|Hgt]; [done|exfalso].
  destruct (Z.eq_dec b 0) as [->|Hnz].
  - by rewrite Z.bits_0 in Hbit.
  - rewrite Z.bits_above_log2 in Hbit; [done|lia|].
    apply Z.lt_le_trans with 6; [|lia].
    apply Z.log2_lt_pow2; [lia|]. change (2 ^ 6) with 64. lia.
Qed.

(** ** [update_param] *)

Section UpdateParamFacts.
Import Legacy.

Implicit Types (params : gmap string node) (param : ParameterSet) (p q : torsion)
  (t : DihedralType) (ts : list DihedralType) (b m : Z) (tn : string).

(** What one iteration does to a term. *)
Lemma update_term_cases params tn b t t' :
  update_term params tn b t = Ok t' →
  1 ≤ per t ∧
  ( (bit_set b (per t) = false ∧ t' = {| phi_k := 0; per := per t; phase := phase t |})
  ∨ (bit_set b (per t) = true ∧ per t = 5 ∧ t' = t)
  ∨ (bit_set b (per t) = true ∧ per t ≠ 5 ∧
     ∃ ndk k ndp ph,
       params !! K_name tn (per t) = Some ndk ∧ value_of ndk ≫= as_float = Ok k ∧
       params !! Phase_name tn (per t) = Some ndp ∧ value_of ndp ≫= as_float = Ok ph ∧
       t' = {| phi_k := k; per := per t; phase := ph |}) ).
Proof.
  unfold update_term, bit_set. intros H.
  destruct (Z.ltb_spec (per t) 1) as [|Hper]; [discriminate|]. split; [done|].
  destruct (negb (Z.land b (2 ^ (per t - 1)) =? 0)) eqn:Hbit.
  - destruct (Z.eqb_spec (per t) 5) as [H5|H5].
    + simplify_eq. right; left. done.
    + right; right. repeat split; [done|].
      apply bind_Ok in H as (ndk & Hk & H). apply getitem_Ok in Hk.
      apply bind_Ok in H as (k & Hkv & H).
      apply bind_Ok in H as (ndp & Hp & H). apply getitem_Ok in Hp.
      apply bind_Ok in H as (ph & Hpv & H).
      simplify_eq. eauto 10.
  - left. by simplify_eq.
Qed.

Lemma update_term_per params tn b t t' :
  update_term params tn b t = Ok t' → per t' = per t.
Proof.
  intros H. apply update_term_cases in H as [_ [(_ & ->) | [(_ & _ & ->) | (_ & _ & H)]]];
    [done..|].
  destruct H as (? & ? & ? & ? & _ & _ & _ & _ & ->). done.
Qed.

(** Running an iteration on its own output changes nothing. *)
Lemma update_term_idem params tn b t t' :
  update_term params tn b t = Ok t' → update_term params tn b t' = Ok t'.
Proof.
  intros H. pose proof (update_term_per _ _ _ _ _ H) as Hper.
  apply update_term_cases in H as [H1 Hcases].
  unfold update_term. rewrite Hper.
  destruct (Z.ltb_spec (per t) 1) as [|_]; [lia|].
  unfold bit_set in Hcases.
  destruct Hcases as [(Hb & ->) | [(Hb & H5 & ->) | (Hb & H5 & H)]].
  - rewrite Hb. done.
  - rewrite Hb. rewrite H5. done.
  - destruct H as (ndk & k & ndp & ph & Hk & Hkv & Hp & Hpv & ->).
    rewrite Hb. destruct (Z.eqb_spec (per t) 5); [done|].
    unfold getitem. rewrite Hk. simpl. rewrite Hkv. simpl.
    rewrite Hp. simpl. rewrite Hpv. done.
Qed.

Lemma update_terms_Forall2 params tn b ts ts' :
  update_terms params tn b ts = Ok ts' →
  Forall2 (λ t t', update_term params tn b t = Ok t') ts ts'.
Proof.
  revert ts'. induction ts as [|t ts IH]; intros ts' H; simpl in H.
  - simplify_eq. constructor.
  - apply bind_Ok in H as (t' & Ht & H). apply bind_Ok in H as (r & Hr & H).
    simplify_eq. constructor; auto.
Qed.

Lemma update_terms_pers params tn b ts ts' :
  update_terms params tn b ts = Ok ts' → per <$> ts' = per <$> ts.
Proof.
  intros H. apply update_terms_Forall2 in H.
  induction H as [|t t' ts ts' Ht _ IH]; [done|].
  simpl. f_equal; [|done]. by eapply update_term_per.
Qed.

Lemma update_terms_idem params tn b ts ts' :
  update_terms params tn b ts = Ok ts' → update_terms params tn b ts' = Ok ts'.
Proof.
  intros H. apply update_terms_Forall2 in H.
  induction H as [|t t' ts ts' Ht _ IH]; [done|].
  simpl. rewrite (update_term_idem _ _ _ _ _ Ht). simpl. rewrite IH. done.
Qed.

(** Reading the bitstring latent, lines 111-112. *)
Lemma read_bitstring params tn b :
  (getitem params (bitstring_name tn) ≫= λ nd, value_of nd ≫= as_int) = Ok b
  ↔ bitstring_of params tn = Some b.
Proof.
  unfold getitem, bitstring_of, value_of.
  destruct (params !! bitstring_name tn) as [nd|]; simpl; [|split; discriminate].
  destruct (node_value nd) as [[x|n|v]|]; simpl; split; intros; simplify_eq; done.
Qed.

(** What the loop body does for one torsion. *)
Lemma update_torsion_inv params param p param' :
  update_torsion params param p = Ok param' →
  ∃ b l ts ts',
    bitstring_of params (torsion_name p) = Some b ∧
    dihedral_types param !! p = Some l ∧ store param !! l = Some ts ∧
    update_terms params (torsion_name p) b ts = Ok ts' ∧
    param' = {| dihedral_types := dihedral_types param; store := <[l := ts']> (store param) |}.
Proof.
  unfold update_torsion. intros H.
  destruct (getitem params (bitstring_name (torsion_name p)) ≫= λ nd, value_of nd ≫= as_int)
    as [b|] eqn:Hb.
  2:{ unfold getitem in *. destruct (params !! _); simpl in *; [|done].
      destruct (value_of n ≫= as_int); simpl in *; done. }
  assert (Hb' := Hb). apply read_bitstring in Hb'.
  unfold getitem in *. destruct (params !! _) as [nd|]; simpl in *; [|done].
  rewrite Hb in H. simpl in H.
  unfold dihedral_list in H.
  destruct (dihedral_types param !! p) as [l|] eqn:Hl; [|done].
  destruct (store param !! l) as [ts|] eqn:Hts; [|done]. simpl in H.
  apply bind_Ok in H as (ts' & Hts' & H). simplify_eq.
  exists b, l, ts, ts'. done.
Qed.

Lemma update_torsion_dict params param p param' :
  update_torsion params param p = Ok param' → dihedral_types param' = dihedral_types param.
Proof. intros H. apply update_torsion_inv in H as (?&?&?&?&_&_&_&_&->). done. Qed.

Lemma update_loop_dict params ps param param' :
  for_each (update_torsion params) ps param = Ok param' →
  dihedral_types param' = dihedral_types param.
Proof.
  apply (for_each_invariant (λ s, dihedral_types s = dihedral_types param)); [|done].
  intros s x s' _ Hs Hstep. apply update_torsion_dict in Hstep. congruence.
Qed.

(** A term-list object that no torsion of the loop holds is left alone. *)
Lemma update_loop_frame params ps param param' (l : nat) :
  for_each (update_torsion params) ps param = Ok param' →
  (∀ p, p ∈ ps → dihedral_types param !! p ≠ Some l) →
  store param' !! l = store param !! l.
Proof.
  intros Hrun Hfree.
  cut (dihedral_types param' = dihedral_types param ∧ store param' !! l = store param !! l).
  { tauto. }
  revert Hrun.
  apply (for_each_invariant
           (λ s, dihedral_types s = dihedral_types param ∧ store s !! l = store param !! l));
    [|done].
  intros s x s' Hx [Hd Hs] Hstep.
  apply update_torsion_inv in Hstep as (b & l' & ts & ts' & _ & Hl' & _ & _ & ->). simpl.
  split; [done|]. rewrite lookup_insert_ne; [done|].
  intros ->. apply (Hfree x Hx). congruence.
Qed.

(** The loop leaves the multiplicities of every term list as they are. *)
Lemma update_loop_pers params ps param param' (l : nat) :
  for_each (update_torsion params) ps param = Ok param' →
  fmap per <$> store param' !! l = fmap per <$> store param !! l.
Proof.
  apply (for_each_invariant
           (λ s, fmap per <$> store s !! l = fmap per <$> store param !! l)); [|done].
  intros s x s' _ Hs Hstep.
  apply update_torsion_inv in Hstep as (b & l' & ts & ts' & _ & _ & Hts & Hup & ->). simpl.
  destruct (decide (l' = l)) as [->|Hne].
  - rewrite lookup_insert_eq. rewrite <- Hs, Hts. simpl.
    f_equal. by eapply update_terms_pers.
  - by rewrite lookup_insert_ne.
Qed.

(** With one term-list object per optimized torsion, the object of [p] ends
    up as one pass of the inner loop leaves it. *)
Lemma update_loop_at params ps param param' p :
  for_each (update_torsion params) ps param = Ok param' →
  distinct_objects param ps → p ∈ ps →
  ∃ b l ts ts',
    bitstring_of params (torsion_name p) = Some b ∧
    dihedral_types param !! p = Some l ∧ store param !! l = Some ts ∧
    update_terms params (torsion_name p) b ts = Ok ts' ∧
    store param' !! l = Some ts'.
Proof.
  revert param. induction ps as [|q ps IH]; intros param Hrun Hdist Hp.
  - by apply elem_of_nil in Hp.
  - simpl in Hrun. apply bind_Ok in Hrun as (param1 & Hstep & Hrest).
    unfold distinct_objects in Hdist. simpl in Hdist. apply NoDup_cons in Hdist as [Hq Hnd].
    apply update_torsion_inv in Hstep as (b & l & ts & ts' & Hb & Hl & Hts & Hup & Hparam1).
    apply elem_of_cons in Hp as [->|Hp].
    + exists b, l, ts, ts'. repeat split; try done.
      rewrite (update_loop_frame _ _ _ _ l Hrest).
      * subst param1. simpl. by rewrite lookup_insert_eq.
      * intros r Hr Hrl. apply Hq. subst param1. simpl in Hrl.
        rewrite Hl, <- Hrl. apply list_elem_of_fmap. by exists r.
    + destruct (IH param1) as (b2 & l2 & ts2 & ts2' & Hb2 & Hl2 & Hts2 & Hup2 & Hfin);
        [done| |done|].
      { unfold distinct_objects. subst param1. done. }
      exists b2, l2, ts2, ts2'. subst param1. simpl in *.
      repeat split; try done.
      rewrite lookup_insert_ne in Hts2; [done|].
      intros ->. apply Hq. rewrite Hl, <- Hl2. apply list_elem_of_fmap. by exists p.
Qed.

Lemma for_each_fixed {S A} (body : S → A → result S) (xs : list A) (s : S) :
  (∀ x, x ∈ xs → body s x = Ok s) → for_each body xs s = Ok s.
Proof.
  induction xs as [|x xs IH]; intros H; simpl; [done|].
  rewrite H by left. simpl. apply IH. intros y Hy. apply H. by right.
Qed.

(** A second pass over the container a first pass produced changes nothing. *)
Lemma update_loop_idem params ps param param' :
  for_each (update_torsion params) ps param = Ok param' →
  distinct_objects param ps →
  for_each (update_torsion params) ps param' = Ok param'.
Proof.
  intros Hrun Hdist. apply for_each_fixed. intros p Hp.
  destruct (update_loop_at _ _ _ _ p Hrun Hdist Hp)
    as (b & l & ts & ts' & Hb & Hl & Hts & Hup & Hfin).
  pose proof (update_loop_dict _ _ _ _ Hrun) as Hd.
  unfold update_torsion.
  apply read_bitstring in Hb. unfold getitem in *.
  destruct (params !! bitstring_name (torsion_name p)) as [nd|]; simpl in *; [|done].
  rewrite Hb. simpl. unfold dihedral_list. rewrite Hd, Hl, Hfin. simpl.
  rewrite (update_terms_idem _ _ _ _ _ Hup). simpl.
  rewrite insert_id by done. destruct param'; simpl in *. by subst.
Qed.

Lemma has_scalar_float params (k : string) :
  has_scalar params k = true →
  ∃ nd x, params !! k = Some nd ∧ value_of nd ≫= as_float = Ok x.
Proof.
  unfold has_scalar, scalar, value_of. destruct (params !! k) as [nd|]; [|done].
  destruct (node_value nd) as [[x|n|v]|] eqn:Hv; intros; try done.
  - exists nd, x. by rewrite Hv.
  - exists nd, (inject_Z n). by rewrite Hv.
Qed.

Lemma latents_ready_inv params p :
  latents_ready params p = true →
  ∃ b, bitstring_of params (torsion_name p) = Some b ∧ 0 ≤ b < 64 ∧
       ∀ m, m ∈ multiplicities →
            has_scalar params (K_name (torsion_name p) m) = true ∧
            has_scalar params (Phase_name (torsion_name p) m) = true.
Proof.
  unfold latents_ready. intros H. apply andb_true_iff in H as [Hb Hm].
  destruct (bitstring_of params (torsion_name p)) as [b|]; [|done].
  exists b. split; [done|]. split; [lia|].
  intros m Hin. rewrite forallb_forall in Hm. apply list_elem_of_In in Hin.
  specialize (Hm m Hin). by apply andb_true_iff in Hm.
Qed.

Lemma update_term_ready params p b t :
  latents_ready params p = true →
  bitstring_of params (torsion_name p) = Some b →
  1 ≤ per t →
  ∃ t', update_term params (torsion_name p) b t = Ok t'.
Proof.
  intros Hready Hb Hper.
  apply latents_ready_inv in Hready as (b' & Hb' & Hrange & Hm).
  rewrite Hb in Hb'. injection Hb' as <-.
  unfold update_term. destruct (Z.ltb_spec (per t) 1); [lia|].
  destruct (negb (Z.land b (2 ^ (per t - 1)) =? 0)) eqn:Hbit; [|eauto].
  destruct (Z.eqb_spec (per t) 5); [eauto|].
  pose proof (bit_set_small b (per t) Hrange Hper Hbit) as Hle.
  assert (Hin : per t ∈ multiplicities).
  { unfold multiplicities.
    assert (per t = 1 ∨ per t = 2 ∨ per t = 3 ∨ per t = 4 ∨ per t = 6) as Hc by lia.
    destruct Hc as [->|[->|[->|[->| ->]]]]; set_solver. }
  destruct (Hm _ Hin) as [HK HP].
  apply has_scalar_float in HK as (ndk & k & Hk & Hkv).
  apply has_scalar_float in HP as (ndp & ph & Hp & Hpv).
  unfold getitem. rewrite Hk. simpl. rewrite Hkv. simpl. rewrite Hp. simpl. rewrite Hpv.
  simpl. eauto.
Qed.

Lemma update_terms_ready params p b ts :
  latents_ready params p = true →
  bitstring_of params (torsion_name p) = Some b →
  Forall (λ t, 1 ≤ per t) ts →
  ∃ ts', update_terms params (torsion_name p) b ts = Ok ts'.
Proof.
  intros Hready Hb. induction 1 as [|t ts Ht _ [ts' IH]]; simpl; [eauto|].
  destruct (update_term_ready _ _ _ _ Hready Hb Ht) as [t' ->]. simpl.
  rewrite IH. simpl. eauto.
Qed.

Lemma terms_ready_shape param param' p :
  same_shape param param' → terms_ready param p = true →
  ∃ l ts, dihedral_types param' !! p = Some l ∧ store param' !! l = Some ts ∧
          Forall (λ t, 1 ≤ per t) ts.
Proof.
  intros [Hd Hs]. unfold terms_ready, dihedral_list. rewrite <- Hd.
  destruct (dihedral_types param' !! p) as [l|] eqn:Hl; [|done].
  specialize (Hs l).
  destruct (store param !! l) as [ts0|]; [|done]. intros Hall.
  destruct (store param' !! l) as [ts|] eqn:Hts; [|done]. simpl in Hs.
  exists l, ts. split; [done|]. split; [done|].
  rewrite forallb_forall in Hall.
  apply Forall_forall. intros t Ht.
  assert (Hin : per t ∈ per <$> ts0).
  { assert (per <$> ts = per <$> ts0) as <- by congruence.
    apply list_elem_of_fmap. eauto. }
  apply list_elem_of_fmap in Hin as (t0 & Heq & Ht0).
  apply list_elem_of_In in Ht0. specialize (Hall _ Ht0). lia.
Qed.

Lemma update_loop_succeeds params ps param :
  (∀ p, p ∈ ps → latents_ready params p = true ∧ terms_ready param p = true) →
  ∃ param', for_each (update_torsion params) ps param = Ok param' ∧ same_shape param param'.
Proof.
  intros Hps. apply (for_each_Ok (same_shape param)); [|by split].
  intros s p Hp Hshape. destruct (Hps p Hp) as [Hlat Hterms].
  destruct (terms_ready_shape _ _ _ Hshape Hterms) as (l & ts & Hl & Hts & Hall).
  destruct (latents_ready_inv _ _ Hlat) as (b & Hb & _ & _).
  destruct (update_terms_ready _ _ _ _ Hlat Hb Hall) as [ts' Hup].
  exists {| dihedral_types := dihedral_types s; store := <[l := ts']> (store s) |}.
  split.
  - unfold update_torsion. apply read_bitstring in Hb. unfold getitem in *.
    destruct (params !! bitstring_name (torsion_name p)); simpl in *; [|done].
    rewrite Hb. simpl. unfold dihedral_list. rewrite Hl, Hts. simpl. rewrite Hup. done.
  - destruct Hshape as [Hd Hs]. split; [done|]. simpl. intros l'.
    destruct (decide (l = l')) as [->|Hne].
    + rewrite lookup_insert_eq, <- Hs, Hts. simpl. f_equal. by eapply update_terms_pers.
    + rewrite lookup_insert_ne by done. apply Hs.
Qed.

Lemma ready_inv (self : TorsionFitModel) param p :
  ready self param = true → p ∈ parameters_to_optimize self →
  latents_ready (pymc_parameters self) p = true ∧ terms_ready param p = true.
Proof.
  unfold ready. rewrite forallb_forall. intros H Hp. apply list_elem_of_In in Hp.
  specialize (H p Hp). by apply andb_true_iff in H.
Qed.

(** The call returns once the latents and the terms are there. *)
Lemma update_param_succeeds (self : TorsionFitModel) param :
  ready self param = true →
  ∃ param', update_param self param = Ok param' ∧ same_shape param param'.
Proof.
  intros H. apply update_loop_succeeds. intros p Hp. by apply ready_inv.
Qed.

Lemma terms_of_shape param param' p ts :
  same_shape param param' → terms_of param p = Some ts →
  ∃ ts', terms_of param' p = Some ts' ∧ per <$> ts' = per <$> ts.
Proof.
  intros [Hd Hs]. unfold terms_of. rewrite Hd.
  destruct (dihedral_types param !! p) as [l|]; simpl; [|done].
  specialize (Hs l). intros Hts. rewrite Hts in Hs.
  destruct (store param' !! l) as [ts'|] eqn:Hts'; simpl in *; [|done].
  exists ts'. split; [done|]. congruence.
Qed.

(** *** A set bit without a term *)

(** C4, as the code has it: when a bit is set for a multiplicity that has no
    term under an optimized torsion, [update_param] raises nothing: it
    returns a container with the same keys and the same multiplicities in
    every term list, so the multiplicity is still missing afterwards. *)
Theorem update_param_skips_missing_term (self : TorsionFitModel) param p m :
  ready self param = true →
  p ∈ parameters_to_optimize self →
  missing_term (pymc_parameters self) param p m →
  ∃ param', update_param self param = Ok param' ∧
            same_shape param param' ∧
            missing_term (pymc_parameters self) param' p m.
Proof.
  intros Hready _ (b & ts & Hb & Hbit & Hts & Hm).
  destruct (update_param_succeeds _ _ Hready) as (param' & Hrun & Hshape).
  exists param'. split; [done|]. split; [done|].
  destruct (terms_of_shape _ _ _ _ Hshape Hts) as (ts' & Hts' & Hpers).
  exists b, ts'. by rewrite Hpers.
Qed.

Lemma legacy0_missing_term :
  missing_term (pymc_parameters Examples.legacy0) Examples.param0 Examples.t0 1.
Proof.
  exists 3, [mkDihedralType 3 2 0]. split; [by vm_compute|]. split; [by vm_compute|].
  split; [by vm_compute|]. simpl. intros H. apply list_elem_of_singleton in H. discriminate H.
Qed.

Lemma t0_optimized_legacy0 : Examples.t0 ∈ parameters_to_optimize Examples.legacy0.
Proof. change (Examples.t0 ∈ [Examples.t0]). left. Qed.

Lemma update_param_skips_missing_term_witness :
  ∃ param', update_param Examples.legacy0 Examples.param0 = Ok param' ∧
            same_shape Examples.param0 param' ∧
            missing_term (pymc_parameters Examples.legacy0) param' Examples.t0 1.
Proof.
  apply (update_param_skips_missing_term Examples.legacy0 Examples.param0 Examples.t0 1).
  - vm_compute. reflexivity.
  - exact t0_optimized_legacy0.
  - exact legacy0_missing_term.
Defined.

(** C4, as the specification has it, fails: bit 0 is set for [t0], the
    container holds no term of multiplicity 1 for [t0], and [update_param]
    returns normally. *)
Lemma update_param_missing_term_no_error :
  Examples.t0 ∈ parameters_to_optimize Examples.legacy0 ∧
  missing_term (pymc_parameters Examples.legacy0) Examples.param0 Examples.t0 1 ∧
  ¬ (∃ e, update_param Examples.legacy0 Examples.param0 = Err e).
Proof.
  split; [exact t0_optimized_legacy0|]. split; [exact legacy0_missing_term|].
  intros [e He]. vm_compute in He. discriminate He.
Qed.

(** *** The reverse orientation *)

(** C5: on a container that stores the two orientations of [t0] as two term
    lists, [update_param] writes the sampled force constant and phase into
    the list of [t0] and leaves the list of [reversed t0] as it was, so the
    two entries differ afterwards. *)
Theorem update_param_leaves_reverse_stale :
  terms_of Examples.param0 Examples.t0 = terms_of Examples.param0 (reversed Examples.t0) ∧
  ∃ param',
    update_param Examples.legacy0 Examples.param0 = Ok param' ∧
    terms_of param' Examples.t0 = Some [mkDihedralType 5 2 1] ∧
    terms_of param' (reversed Examples.t0) = Some [mkDihedralType 3 2 0] ∧
    terms_of param' Examples.t0 ≠ terms_of param' (reversed Examples.t0).
Proof.
  split; [by vm_compute|].
  destruct (update_param Examples.legacy0 Examples.param0) as [param'|e] eqn:Hrun;
    [|vm_compute in Hrun; discriminate Hrun].
  exists param'. split; [done|].
  assert (Some param' = Some
    {| dihedral_types := dihedral_types Examples.param0;
       store := <[1%nat := [mkDihedralType 5 2 1]]> (store Examples.param0) |}) as Heq.
  { vm_compute in Hrun. injection Hrun as <-. by vm_compute. }
  injection Heq as ->.
  split; [by vm_compute|]. split; [by vm_compute|].
  vm_compute. discriminate.
Qed.

(** Both orientations read the same terms after [update_param] when their
    keys hold one list object. *)
Lemma update_param_aliased_reverse (self : TorsionFitModel) param param' p :
  update_param self param = Ok param' →
  dihedral_types param !! p = dihedral_types param !! reversed p →
  terms_of param' p = terms_of param' (reversed p).
Proof.
  intros Hrun Halias. unfold terms_of.
  by rewrite (update_loop_dict _ _ _ _ Hrun), Halias.
Qed.

(** *** Multiplicity 5 *)

Lemma multiplicity_of_set_bit b m :
  0 ≤ b < 64 → 1 ≤ m → bit_set b m = true → m ≠ 5 → m ∈ multiplicities.
Proof.
  intros Hb Hm Hbit H5. pose proof (bit_set_small b m Hb Hm Hbit) as H6.
  assert (m = 1 ∨ m = 2 ∨ m = 3 ∨ m = 4 ∨ m = 6) as Hcases by lia.
  unfold multiplicities. destruct Hcases as [->|[->|[->|[->| ->]]]]; set_solver.
Qed.

(** C10: for an optimized torsion whose list object no other optimized
    torsion holds, [update_param] treats the terms one by one, keeping their
    multiplicities: a term of multiplicity 5 whose bit (value 16) is set is
    left as it is; a term whose bit is clear gets force constant 0 and keeps
    its phase, multiplicity 5 included; a term of another multiplicity whose
    bit is set has a multiplicity among 1, 2, 3, 4, 6 and receives the
    current values of its force-constant and phase latents. *)
Theorem update_param_multiplicity_5 (self : TorsionFitModel) param p ts :
  ready self param = true →
  distinct_objects param (parameters_to_optimize self) →
  p ∈ parameters_to_optimize self →
  terms_of param p = Some ts →
  ∃ b param' ts',
    bitstring_of (pymc_parameters self) (torsion_name p) = Some b ∧
    update_param self param = Ok param' ∧
    terms_of param' p = Some ts' ∧
    Forall2 (λ t t',
        per t' = per t ∧
        if bit_set b (per t) then
          if per t =? 5 then t' = t
          else
            per t ∈ multiplicities ∧
            (getitem (pymc_parameters self) (K_name (torsion_name p) (per t))
               ≫= λ nd, value_of nd ≫= as_float) = Ok (phi_k t') ∧
            (getitem (pymc_parameters self) (Phase_name (torsion_name p) (per t))
               ≫= λ nd, value_of nd ≫= as_float) = Ok (phase t')
        else phi_k t' = 0%Q ∧ phase t' = phase t)
      ts ts'.
Proof.
  intros Hready Hdistinct Hp Hts.
  destruct (update_param_succeeds _ _ Hready) as (param' & Hrun & Hshape).
  destruct (update_loop_at _ _ _ _ _ Hrun Hdistinct Hp)
    as (b & l & ts0 & ts' & Hb & Hl & Hts0 & Hterms & Hstore).
  assert (ts0 = ts) as ->.
  { unfold terms_of in Hts. rewrite Hl in Hts. simpl in Hts. congruence. }
  destruct (ready_inv _ _ _ Hready Hp) as [Hlat _].
  destruct (latents_ready_inv _ _ Hlat) as (b0 & Hb0 & Hrange & _).
  assert (b0 = b) as -> by congruence.
  exists b, param', ts'. split; [done|]. split; [done|]. split.
  { unfold terms_of. rewrite (update_loop_dict _ _ _ _ Hrun), Hl. done. }
  eapply Forall2_impl; [exact (update_terms_Forall2 _ _ _ _ _ Hterms)|].
  intros t t' Ht. simpl in Ht.
  split; [exact (update_term_per _ _ _ _ _ Ht)|].
  destruct (update_term_cases _ _ _ _ _ Ht) as [Hper Hcases].
  destruct Hcases as [[Hbit ->]|[(Hbit & H5 & ->)|(Hbit & H5 & Hset)]]; rewrite Hbit.
  - done.
  - rewrite H5. done.
  - destruct (Z.eqb_spec (per t) 5) as [|_]; [done|].
    destruct Hset as (ndk & k & ndp & ph & Hk & Hkv & Hph & Hphv & ->). simpl.
    split; [by apply (multiplicity_of_set_bit b)|].
    apply getitem_Ok in Hk, Hph. rewrite Hk, Hph. simpl. done.
Qed.

Lemma legacy5_distinct_objects :
  distinct_objects Examples.param5 (parameters_to_optimize Examples.legacy5).
Proof. unfold distinct_objects. change (parameters_to_optimize Examples.legacy5) with [Examples.t0].
  simpl. apply NoDup_singleton. Qed.

Lemma t0_optimized_legacy5 : Examples.t0 ∈ parameters_to_optimize Examples.legacy5.
Proof. change (Examples.t0 ∈ [Examples.t0]). left. Qed.

Lemma update_param_multiplicity_5_witness :
  ∃ b param' ts',
    bitstring_of (pymc_parameters Examples.legacy5) (torsion_name Examples.t0) = Some b ∧
    update_param Examples.legacy5 Examples.param5 = Ok param' ∧
    terms_of param' Examples.t0 = Some ts' ∧
    Forall2 (λ t t',
        per t' = per t ∧
        if bit_set b (per t) then
          if per t =? 5 then t' = t
          else
            per t ∈ multiplicities ∧
            (getitem (pymc_parameters Examples.legacy5) (K_name (torsion_name Examples.t0) (per t))
               ≫= λ nd, value_of nd ≫= as_float) = Ok (phi_k t') ∧
            (getitem (pymc_parameters Examples.legacy5)
               (Phase_name (torsion_name Examples.t0) (per t))
               ≫= λ nd, value_of nd ≫= as_float) = Ok (phase t')
        else phi_k t' = 0%Q ∧ phase t' = phase t)
      [mkDihedralType 1 1 0; mkDihedralType 2 5 (1 # 2); mkDihedralType 4 5 0; mkDihedralType 3 2 0]
      ts'.
Proof.
  apply (update_param_multiplicity_5 Examples.legacy5 Examples.param5 Examples.t0).
  - vm_compute. reflexivity.
  - exact legacy5_distinct_objects.
  - exact t0_optimized_legacy5.
  - vm_compute. reflexivity.
Defined.

(** The run behind the witness: bits 1 and 5 are on; the term of multiplicity
    1 takes the sampled values, the two terms of multiplicity 5 keep theirs,
    the term of multiplicity 2 is switched off. *)
Lemma update_param_legacy5 :
  match update_param Examples.legacy5 Examples.param5 with
  | Ok param' => terms_of param' Examples.t0
  | Err _ => None
  end
  = Some [mkDihedralType 7 1 1; mkDihedralType 2 5 (1 # 2);
          mkDihedralType 4 5 0; mkDihedralType 0 2 0].
Proof. by vm_compute. Qed.

End UpdateParamFacts.

(** ** More on [update_param]: what it keeps, when it returns *)

Section UpdateParamMore.
Import Legacy.

Implicit Types (params : gmap string node) (param : ParameterSet) (p q : torsion)
  (t : DihedralType) (ts : list DihedralType) (b m : Z) (tn : string).


Lemma same_shape_refl param : same_shape param param.
Proof. by split. Qed.

Lemma update_torsion_shape params param0 param p param' :
  same_shape param0 param → update_torsion params param p = Ok param' →
  same_shape param0 param'.
Proof.
  intros [Hd Hs] Hstep.
  apply update_torsion_inv in Hstep as (b & l & ts & ts' & _ & _ & Hts & Hup & ->).
  split; [done|]. simpl. intros l'.
  destruct (decide (l = l')) as [->|Hne].
  - rewrite lookup_insert_eq, <- Hs, Hts. simpl. f_equal. by eapply update_terms_pers.
  - rewrite lookup_insert_ne by done. apply Hs.
Qed.

Lemma update_loop_shape params ps param param' :
  for_each (update_torsion params) ps param = Ok param' → same_shape param param'.
Proof.
  apply (for_each_invariant (same_shape param)); [|apply same_shape_refl].
  intros s x s' _ Hs Hstep. by eapply update_torsion_shape.
Qed.

Lemma terms_of_pers param param' q :
  same_shape param param' →
  fmap (M:=list) per <$> terms_of param' q = fmap (M:=list) per <$> terms_of param q.
Proof.
  intros [Hd Hs]. unfold terms_of. rewrite Hd.
  destruct (dihedral_types param !! q) as [l|]; simpl; [apply Hs|done].
Qed.

(** X1: a call of [update_param] that returns has kept the keys of the
    container, and under every key the number of terms and the multiplicity
    of each term: force constants and phases are all it writes. *)
Theorem update_param_keeps_shape (self : TorsionFitModel) param param' q :
  update_param self param = Ok param' →
  dihedral_types param' = dihedral_types param ∧
  fmap (M:=list) per <$> terms_of param' q = fmap (M:=list) per <$> terms_of param q ∧
  length <$> terms_of param' q = length <$> terms_of param q.
Proof.
  intros Hrun. pose proof (update_loop_shape _ _ _ _ Hrun) as Hshape.
  split; [apply Hshape|]. pose proof (terms_of_pers _ _ q Hshape) as Hpers.
  split; [done|].
  destruct (terms_of param' q) as [ts'|], (terms_of param q) as [ts|]; simpl in *; try done.
  f_equal. injection Hpers as Hpers.
  by rewrite <- (length_fmap per ts'), Hpers, length_fmap.
Qed.

Lemma update_param_legacy0 :
  update_param Examples.legacy0 Examples.param0 = Ok Examples.param0_synced.
Proof. by vm_compute. Qed.

Lemma update_param_keeps_shape_witness :
  dihedral_types Examples.param0_synced = dihedral_types Examples.param0 ∧
  fmap (M:=list) per <$> terms_of Examples.param0_synced Examples.t0
    = fmap (M:=list) per <$> terms_of Examples.param0 Examples.t0 ∧
  length <$> terms_of Examples.param0_synced Examples.t0
    = length <$> terms_of Examples.param0 Examples.t0.
Proof.
  apply (update_param_keeps_shape Examples.legacy0). vm_compute. reflexivity.
Defined.

(** X2: a term list that no optimized torsion holds is not written: a key
    bound to such a list reads the same terms before and after
    [update_param]. *)
Theorem update_param_frame (self : TorsionFitModel) param param' q (l : nat) :
  update_param self param = Ok param' →
  dihedral_types param !! q = Some l →
  (∀ p, p ∈ parameters_to_optimize self → dihedral_types param !! p ≠ Some l) →
  terms_of param' q = terms_of param q.
Proof.
  intros Hrun Hq Hfree. unfold terms_of.
  rewrite (update_loop_dict _ _ _ _ Hrun), Hq. simpl.
  by apply (update_loop_frame _ _ _ _ l Hrun).
Qed.

Lemma update_param_frame_witness :
  terms_of Examples.param0_synced (reversed Examples.t0)
  = terms_of Examples.param0 (reversed Examples.t0).
Proof.
  apply (update_param_frame Examples.legacy0 Examples.param0 Examples.param0_synced
           (reversed Examples.t0) 2%nat).
  - vm_compute. reflexivity.
  - vm_compute. reflexivity.
  - intros p Hp. change (p ∈ [Examples.t0]) in Hp.
    apply list_elem_of_singleton in Hp as ->. vm_compute. discriminate.
Defined.

(** X3: with the latent values unchanged, and no list object shared by two
    optimized torsions, a second [update_param] returns the container the
    first one produced. *)
Theorem update_param_idempotent (self : TorsionFitModel) param param' :
  update_param self param = Ok param' →
  distinct_objects param (parameters_to_optimize self) →
  update_param self param' = Ok param'.
Proof. apply update_loop_idem. Qed.

Lemma legacy0_distinct_objects :
  distinct_objects Examples.param0 (parameters_to_optimize Examples.legacy0).
Proof.
  unfold distinct_objects. change (parameters_to_optimize Examples.legacy0) with [Examples.t0].
  simpl. apply NoDup_singleton.
Qed.

Lemma update_param_idempotent_witness :
  update_param Examples.legacy0 Examples.param0_synced = Ok Examples.param0_synced.
Proof.
  apply (update_param_idempotent Examples.legacy0 Examples.param0).
  - vm_compute. reflexivity.
  - exact legacy0_distinct_objects.
Defined.

End UpdateParamMore.

(** ** [add_missing] *)

Section AddMissingFacts.
Import Legacy.

Implicit Types (param : ParameterSet) (p q : torsion)
  (t : DihedralType) (ts : list DihedralType) (j m : Z).

(** A loop that returns passed through each of its elements. *)
Lemma for_each_split {S A} (body : S → A → result S) (xs : list A) (x : A) (s s' : S) :
  x ∈ xs → for_each body xs s = Ok s' →
  ∃ xs1 xs2 s1 s2,
    xs = xs1 ++ x :: xs2 ∧ for_each body xs1 s = Ok s1 ∧ body s1 x = Ok s2 ∧
    for_each body xs2 s2 = Ok s'.
Proof.
  revert s. induction xs as [|y xs IH]; intros s Hx Hrun.
  - by apply elem_of_nil in Hx.
  - simpl in Hrun. apply bind_Ok in Hrun as (s1 & H1 & Hrest).
    apply elem_of_cons in Hx as [->|Hx].
    + exists [], xs, s, s1. done.
    + destruct (IH s1 Hx Hrest) as (xs1 & xs2 & s2 & s3 & -> & Hpre & Hstep & Hpost).
      exists (y :: xs1), xs2, s2, s3. simpl. rewrite H1. done.
Qed.

(** The terms the inner loop of lines 97-99 appends to a list whose
    multiplicities are [pers]. *)
Lemma add_missing_fold (pers : list Z) (ms : list Z) ts :
  foldl (λ ts j, if bool_decide (j ∈ pers) then ts else ts ++ [mkDihedralType 0 j 0]) ts ms
  = ts ++ (zero_term <$> filter (λ j, j ∉ pers) ms).
Proof.
  revert ts. induction ms as [|j ms IH]; intros ts; simpl.
  - by rewrite app_nil_r.
  - rewrite IH. destruct (decide (j ∈ pers)) as [Hin|Hout].
    + rewrite bool_decide_eq_true_2 by done. by rewrite filter_cons_False by tauto.
    + rewrite bool_decide_eq_false_2 by done. rewrite filter_cons_True by done.
      simpl. by rewrite <- app_assoc.
Qed.

Lemma add_missing_torsion_inv param p param' :
  add_missing_torsion param p = Ok param' →
  ∃ (l : nat) ts,
    dihedral_types param !! p = Some l ∧ store param !! l = Some ts ∧
    param' = {| dihedral_types := dihedral_types param;
                store := <[l := ts ++ (zero_term
                                         <$> filter (λ j, j ∉ per <$> ts) multiplicities)]>
                           (store param) |}.
Proof.
  unfold add_missing_torsion, dihedral_list. intros H.
  remember multiplicities as ms eqn:Hms in H.
  destruct (dihedral_types param !! p) as [l|] eqn:Hl; [|done].
  destruct (store param !! l) as [ts|] eqn:Hts; [|done]. simpl in H.
  exists l, ts. split; [done|]. split; [done|].
  rewrite add_missing_fold in H. subst ms. by injection H as <-.
Qed.

Lemma multiplicities_NoDup : NoDup multiplicities.
Proof. apply (bool_decide_unpack _). by vm_compute. Qed.

Lemma five_not_in_multiplicities : 5 ∉ multiplicities.
Proof. apply (bool_decide_unpack _). by vm_compute. Qed.

Lemma per_zero_terms (js : list Z) : per <$> (zero_term <$> js) = js.
Proof. induction js as [|j js IH]; csimpl; [done|]. by rewrite IH. Qed.

Lemma grown_from_refl param : grown_from param param.
Proof.
  split; [done|]. intros l ts Hts. exists []. simpl. rewrite app_nil_r.
  split; [done|]. split; [set_solver|]. split; [set_solver|]. constructor.
Qed.

Lemma add_missing_torsion_grown param0 param p param' :
  grown_from param0 param → add_missing_torsion param p = Ok param' →
  grown_from param0 param'.
Proof.
  intros [Hd Hs] Hstep.
  apply add_missing_torsion_inv in Hstep as (l & cur & Hl & Hcur & ->).
  split; [done|]. simpl. intros l' ts0 Hts0.
  destruct (Hs l' ts0 Hts0) as (extra & Hext & Hsub & Hnew & Hnd).
  destruct (decide (l = l')) as [->|Hne]; [|rewrite lookup_insert_ne by done; eauto].
  rewrite lookup_insert_eq. rewrite Hcur in Hext. injection Hext as ->.
  exists (extra ++ filter (λ j, j ∉ per <$> ts0 ++ (zero_term <$> extra)) multiplicities).
  split; [by rewrite (fmap_app zero_term), app_assoc|].
  split.
  { intros j Hj. apply elem_of_app in Hj as [Hj|Hj]; [by apply Hsub|].
    by apply list_elem_of_filter in Hj as [_ Hj]. }
  split.
  { intros j Hj. apply elem_of_app in Hj as [Hj|Hj]; [by apply Hnew|].
    apply list_elem_of_filter in Hj as [Hj _]. intros Hin. apply Hj.
    rewrite fmap_app. apply elem_of_app. by left. }
  apply NoDup_app. split; [done|]. split.
  - intros j Hj Hj'. apply list_elem_of_filter in Hj' as [Hj' _]. apply Hj'.
    rewrite fmap_app, per_zero_terms. apply elem_of_app. by right.
  - apply NoDup_filter, multiplicities_NoDup.
Qed.

Lemma add_missing_loop_grown ps param param' :
  for_each add_missing_torsion ps param = Ok param' → grown_from param param'.
Proof.
  apply (for_each_invariant (grown_from param)); [|apply grown_from_refl].
  intros s x s' _ Hs Hstep. by eapply add_missing_torsion_grown.
Qed.

(** X4: [add_missing] only appends.  It keeps the keys of the container and,
    under every key, the terms that were there, in their order; what follows
    them are terms [DihedralType(0, j, 0)] with [j] among 1, 2, 3, 4, 6 (never
    5), for multiplicities the list did not have, each added once. *)
Theorem add_missing_appends (self : TorsionFitModel) param param' q ts :
  add_missing self param = Ok param' →
  terms_of param q = Some ts →
  dihedral_types param' = dihedral_types param ∧
  ∃ extra, terms_of param' q = Some (ts ++ (zero_term <$> extra)) ∧
           extra ⊆ multiplicities ∧ (5 ∉ extra) ∧
           (∀ j, j ∈ extra → j ∉ per <$> ts) ∧ NoDup extra.
Proof.
  intros Hrun Hts. destruct (add_missing_loop_grown _ _ _ Hrun) as [Hd Hs].
  split; [done|]. unfold terms_of in *. rewrite Hd.
  destruct (dihedral_types param !! q) as [l|]; simpl in *; [|done].
  destruct (Hs l ts Hts) as (extra & Hext & Hsub & Hnew & Hnd).
  exists extra. split; [done|]. split; [done|]. split; [|done].
  intros H5. by apply five_not_in_multiplicities, Hsub.
Qed.

Lemma add_missing_appends_witness :
  dihedral_types Examples.param0_completed = dihedral_types Examples.param0 ∧
  ∃ extra, terms_of Examples.param0_completed Examples.t0
           = Some ([mkDihedralType 3 2 0] ++ (zero_term <$> extra)) ∧
           extra ⊆ multiplicities ∧ (5 ∉ extra) ∧
           (∀ j, j ∈ extra → j ∉ per <$> [mkDihedralType 3 2 0]) ∧ NoDup extra.
Proof.
  apply (add_missing_appends Examples.legacy0 Examples.param0 Examples.param0_completed
           Examples.t0 [mkDihedralType 3 2 0]).
  - vm_compute. reflexivity.
  - vm_compute. reflexivity.
Defined.

(** After the loop, the list of an optimized torsion has every multiplicity
    of [multiplicities]. *)
Lemma add_missing_loop_has ps param param' p :
  for_each add_missing_torsion ps param = Ok param' → p ∈ ps →
  ∃ (l : nat) ts', dihedral_types param' !! p = Some l ∧ store param' !! l = Some ts' ∧
                   ∀ j, j ∈ multiplicities → j ∈ per <$> ts'.
Proof.
  intros Hrun Hp.
  destruct (for_each_split _ _ _ _ _ Hp Hrun)
    as (ps1 & ps2 & s1 & s2 & _ & Hpre & Hstep & Hpost).
  apply add_missing_torsion_inv in Hstep as (l & cur & Hl & Hcur & ->).
  destruct (add_missing_loop_grown _ _ _ Hpost) as [Hd2 Hs2]. simpl in *.
  destruct (Hs2 l _ (lookup_insert_eq _ _ _)) as (extra & Hfin & _).
  exists l. eexists. split; [by rewrite Hd2|]. split; [exact Hfin|].
  intros j Hj. rewrite !fmap_app, per_zero_terms.
  destruct (decide (j ∈ per <$> cur)) as [Hin|Hout].
  - apply elem_of_app. left. apply elem_of_app. by left.
  - apply elem_of_app. left. apply elem_of_app. right.
    by apply list_elem_of_filter.
Qed.

(** X5: after [add_missing], every optimized torsion has a term of each of
    the multiplicities 1, 2, 3, 4 and 6. *)
Theorem add_missing_complete (self : TorsionFitModel) param param' p j :
  add_missing self param = Ok param' →
  p ∈ parameters_to_optimize self →
  j ∈ multiplicities →
  ∃ ts', terms_of param' p = Some ts' ∧ j ∈ per <$> ts'.
Proof.
  intros Hrun Hp Hj.
  destruct (add_missing_loop_has _ _ _ _ Hrun Hp) as (l & ts' & Hl & Hts' & Hall).
  exists ts'. split; [|by apply Hall]. unfold terms_of. by rewrite Hl.
Qed.

Lemma six_in_multiplicities : 6 ∈ multiplicities.
Proof. apply (bool_decide_unpack _). by vm_compute. Qed.

Lemma add_missing_complete_witness :
  ∃ ts', terms_of Examples.param0_completed Examples.t0 = Some ts' ∧ 6 ∈ per <$> ts'.
Proof.
  apply (add_missing_complete Examples.legacy0 Examples.param0 Examples.param0_completed
           Examples.t0 6).
  - vm_compute. reflexivity.
  - exact t0_optimized_legacy0.
  - exact six_in_multiplicities.
Defined.

Lemma filter_absent_nil (pers ms : list Z) :
  (∀ j, j ∈ ms → j ∈ pers) → filter (λ j, j ∉ pers) ms = [].
Proof.
  induction ms as [|j ms IH]; intros Hall; [done|].
  rewrite filter_cons_False by (intros Hj; apply Hj, Hall; left).
  apply IH. intros i Hi. apply Hall. by right.
Qed.

(** X6: [add_missing] is idempotent: run on the container it returned, it
    returns that container again, with nothing appended. *)
Theorem add_missing_idempotent (self : TorsionFitModel) param param' :
  add_missing self param = Ok param' → add_missing self param' = Ok param'.
Proof.
  intros Hrun. apply for_each_fixed. intros p Hp.
  destruct (add_missing_loop_has _ _ _ _ Hrun Hp) as (l & ts' & Hl & Hts' & Hall).
  unfold add_missing_torsion, dihedral_list. rewrite Hl, Hts'.
  change (Ok (l, ts') ≫= _) with
    (Ok (A:=ParameterSet)
       {| dihedral_types := dihedral_types param';
          store := <[l := foldl (λ ts j, if bool_decide (j ∈ per <$> ts') then ts
                                         else ts ++ [mkDihedralType 0 j 0]) ts' multiplicities]>
                     (store param') |}).
  rewrite add_missing_fold, (filter_absent_nil _ _ Hall). simpl. rewrite app_nil_r.
  rewrite insert_id by done. by destruct param'.
Qed.

Lemma add_missing_idempotent_witness :
  add_missing Examples.legacy0 Examples.param0_completed = Ok Examples.param0_completed.
Proof.
  apply (add_missing_idempotent Examples.legacy0 Examples.param0). vm_compute. reflexivity.
Defined.






End AddMissingFacts.

(** ** When [update_param] returns *)

Section UpdateParamReturns.
Import Legacy.

Implicit Types (params : gmap string node) (param : ParameterSet) (p q : torsion)
  (t : DihedralType) (ts : list DihedralType) (b m : Z) (tn : string).








(** X9: [add_missing] followed by [update_param]: every multiplicity among
    1, 2, 3, 4, 6 whose bit is set then has a term under the optimized
    torsion that carries the current values of its force-constant and phase
    latents (no list object being shared by two optimized torsions). *)
Theorem add_missing_then_update_param (self : TorsionFitModel) param param1 param2 p m b :
  add_missing self param = Ok param1 →
  update_param self param1 = Ok param2 →
  distinct_objects param (parameters_to_optimize self) →
  p ∈ parameters_to_optimize self →
  m ∈ multiplicities →
  bitstring_of (pymc_parameters self) (torsion_name p) = Some b →
  bit_set b m = true →
  ∃ ts t, terms_of param2 p = Some ts ∧ t ∈ ts ∧ per t = m ∧
          (getitem (pymc_parameters self) (K_name (torsion_name p) m)
             ≫= λ nd, value_of nd ≫= as_float) = Ok (phi_k t) ∧
          (getitem (pymc_parameters self) (Phase_name (torsion_name p) m)
             ≫= λ nd, value_of nd ≫= as_float) = Ok (phase t).
Proof.
  intros Hadd Hrun Hdist Hp Hm Hb Hbit.
  destruct (add_missing_loop_has _ _ _ _ Hadd Hp) as (l & ts1 & Hl & Hts1 & Hall).
  pose proof (add_missing_loop_grown _ _ _ Hadd) as [Hd _].
  assert (Hdist1 : distinct_objects param1 (parameters_to_optimize self)).
  { unfold distinct_objects in *. by rewrite Hd. }
  destruct (update_loop_at _ _ _ _ _ Hrun Hdist1 Hp)
    as (b' & l' & ts1' & ts2 & Hb' & Hl' & Hts1' & Hup & Hfin).
  assert (b' = b) as -> by congruence. assert (l' = l) as -> by congruence.
  assert (ts1' = ts1) as -> by congruence.
  specialize (Hall m Hm). apply list_elem_of_fmap in Hall as (t1 & Hper & Ht1).
  apply list_elem_of_lookup in Ht1 as [i Hi].
  apply update_terms_Forall2 in Hup.
  destruct (Forall2_lookup_l _ _ _ _ _ Hup Hi) as (t2 & Hi2 & Hstep).
  exists ts2, t2. split.
  { unfold terms_of. rewrite (update_loop_dict _ _ _ _ Hrun), Hl. done. }
  split; [by eapply list_elem_of_lookup_2|].
  pose proof (update_term_per _ _ _ _ _ Hstep) as Hper2.
  split; [congruence|].
  destruct (update_term_cases _ _ _ _ _ Hstep) as [_ Hc].
  assert (m ≠ 5) as H5. { intros ->. by apply five_not_in_multiplicities. }
  rewrite <- Hper in Hc.
  destruct Hc as [[Hb0 _]|[(_ & H5' & _)|(_ & _ & Hset)]]; [congruence|done|].
  destruct Hset as (ndk & k & ndp & ph & Hk & Hkv & Hph & Hphv & ->). simpl.
  apply getitem_Ok in Hk, Hph. rewrite Hk, Hph. simpl. done.
Qed.

Lemma one_in_multiplicities : 1 ∈ multiplicities.
Proof. apply (bool_decide_unpack _). by vm_compute. Qed.

Lemma add_missing_then_update_param_witness :
  ∃ ts t, terms_of Examples.param0_completed_synced Examples.t0 = Some ts ∧ t ∈ ts ∧ per t = 1 ∧
          (getitem (pymc_parameters Examples.legacy0) (K_name (torsion_name Examples.t0) 1)
             ≫= λ nd, value_of nd ≫= as_float) = Ok (phi_k t) ∧
          (getitem (pymc_parameters Examples.legacy0) (Phase_name (torsion_name Examples.t0) 1)
             ≫= λ nd, value_of nd ≫= as_float) = Ok (phase t).
Proof.
  apply (add_missing_then_update_param Examples.legacy0 Examples.param0
           Examples.param0_completed Examples.param0_completed_synced Examples.t0 1 3).
  - vm_compute. reflexivity.
  - vm_compute. reflexivity.
  - exact legacy0_distinct_objects.
  - exact t0_optimized_legacy0.
  - exact one_in_multiplicities.
  - vm_compute. reflexivity.
  - vm_compute. reflexivity.
Defined.

End UpdateParamReturns.

(** ** The deterministic node [mm_potential] *)

Section PotentialFacts.
Import Legacy.

Variable compute_energy : fragment → ParameterSet → result fragment.

Implicit Types (param : ParameterSet) (fs : list fragment) (e : list Q).

(** The loop of lines 70-72 evaluates the fragments in order, each against
    the same container, and appends their energies. *)
Lemma energy_loop_inv param fs fs0 e0 r :
  for_each (λ '(frags, mm_energy) frag,
      frag ← compute_energy frag param;
      Ok (frags ++ [frag], mm_energy ++ Legacy.mm_energy frag)) fs (fs0, e0) = Ok r →
  ∃ fs', Forall2 (λ f f', compute_energy f param = Ok f') fs fs' ∧
         r = (fs0 ++ fs', e0 ++ concat (Legacy.mm_energy <$> fs')).
Proof.
  revert fs0 e0. induction fs as [|f fs IH]; intros fs0 e0 H; simpl in H.
  - injection H as <-. exists []. simpl. by rewrite !app_nil_r.
  - destruct (compute_energy f param) as [f'|] eqn:Hf; simpl in H; [|done].
    destruct (IH _ _ H) as (fs' & Hall & ->).
    exists (f' :: fs'). split; [by constructor|]. csimpl.
    by rewrite <- !app_assoc.
Qed.

Lemma energy_loop_run param fs fs' fs0 e0 :
  Forall2 (λ f f', compute_energy f param = Ok f') fs fs' →
  for_each (λ '(frags, mm_energy) frag,
      frag ← compute_energy frag param;
      Ok (frags ++ [frag], mm_energy ++ Legacy.mm_energy frag)) fs (fs0, e0)
  = Ok (fs0 ++ fs', e0 ++ concat (Legacy.mm_energy <$> fs')).
Proof.
  intros H. revert fs0 e0. induction H as [|f f' fs fs' Hf _ IH]; intros fs0 e0; simpl.
  - by rewrite !app_nil_r.
  - rewrite Hf. simpl. rewrite IH. csimpl. by rewrite <- !app_assoc.
Qed.

(** What an evaluation returns. *)
Lemma mm_potential_inv (self : TorsionFitModel) param e self' param' :
  mm_potential compute_energy self param = Ok (e, self', param') →
  update_param self param = Ok param' ∧
  Forall2 (λ f f', compute_energy f param' = Ok f') (frags self) (frags self') ∧
  e = concat (Legacy.mm_energy <$> frags self') ∧
  pymc_parameters self' = pymc_parameters self ∧
  parameters_to_optimize self' = parameters_to_optimize self.
Proof.
  unfold mm_potential. intros H.
  apply bind_Ok in H as (param1 & Hup & H).
  apply bind_Ok in H as ([fs' e'] & Hloop & H).
  apply energy_loop_inv in Hloop as (fs1 & Hall & [= -> ->]).
  injection H as <- <- <-. simpl. done.
Qed.

(** X10: the legacy [mm_potential] can be evaluated again: with the latent
    values unchanged, no list object shared by two optimized torsions, and
    an energy evaluator whose result does not depend on the energies a
    fragment already holds, a second evaluation returns the same energy
    vector and leaves the model's fragments and the container as the first
    evaluation left them. *)
Theorem mm_potential_repeatable (self : TorsionFitModel) param e self' param' :
  mm_potential compute_energy self param = Ok (e, self', param') →
  distinct_objects param (parameters_to_optimize self) →
  (∀ f f' pm, compute_energy f pm = Ok f' → compute_energy f' pm = Ok f') →
  mm_potential compute_energy self' param' = Ok (e, self', param').
Proof.
  intros Hrun Hdist Hstable.
  destruct (mm_potential_inv _ _ _ _ _ Hrun) as (Hup & Hall & -> & Hpar & Hpto).
  unfold mm_potential.
  assert (update_param self' param' = Ok param') as ->.
  { unfold update_param in *. rewrite Hpar, Hpto. by apply (update_loop_idem _ _ param). }
  simpl.
  rewrite (energy_loop_run param' (frags self') (frags self') [] []).
  - simpl. by destruct self'.
  - clear -Hall Hstable. induction Hall as [|f f' fs fs' Hf _ IH]; constructor; [|done].
    by eapply Hstable.
Qed.

(** X11: an evaluation of the legacy [mm_potential] that returns has first
    synchronized the container with [update_param], then evaluated the
    fragments in order against the synchronized container; the vector it
    returns is the concatenation, in fragment order, of the energies those
    evaluations produced, and the latents and the optimized torsions of the
    model are as before. *)
Theorem mm_potential_evaluates (self : TorsionFitModel) param e self' param' :
  mm_potential compute_energy self param = Ok (e, self', param') →
  update_param self param = Ok param' ∧
  Forall2 (λ f f', compute_energy f param' = Ok f') (frags self) (frags self') ∧
  e = concat (Legacy.mm_energy <$> frags self') ∧
  pymc_parameters self' = pymc_parameters self ∧
  parameters_to_optimize self' = parameters_to_optimize self.
Proof. apply mm_potential_inv. Qed.

End PotentialFacts.

Lemma stub_compute_energy_stable f f' pm :
  Examples.stub_compute_energy f pm = Ok f' → Examples.stub_compute_energy f' pm = Ok f'.
Proof.
  unfold Examples.stub_compute_energy.
  destruct (terms_of pm Examples.t0) as [ts|]; [|done].
  intros [= <-]. simpl. done.
Qed.

Lemma mm_potential_repeatable_witness :
  Legacy.mm_potential Examples.stub_compute_energy Examples.legacy0_evaluated
    Examples.param0_synced
  = Ok ([5]%Q, Examples.legacy0_evaluated, Examples.param0_synced).
Proof.
  apply (mm_potential_repeatable Examples.stub_compute_energy Examples.legacy0 Examples.param0).
  - vm_compute. reflexivity.
  - exact legacy0_distinct_objects.
  - exact stub_compute_energy_stable.
Defined.

Lemma mm_potential_evaluates_witness :
  Legacy.update_param Examples.legacy0 Examples.param0 = Ok Examples.param0_synced ∧
  Forall2 (λ f f', Examples.stub_compute_energy f Examples.param0_synced = Ok f')
    (Legacy.frags Examples.legacy0) (Legacy.frags Examples.legacy0_evaluated) ∧
  [5]%Q = concat (Legacy.mm_energy <$> Legacy.frags Examples.legacy0_evaluated) ∧
  Legacy.pymc_parameters Examples.legacy0_evaluated = Legacy.pymc_parameters Examples.legacy0 ∧
  Legacy.parameters_to_optimize Examples.legacy0_evaluated
  = Legacy.parameters_to_optimize Examples.legacy0.
Proof.
  apply (mm_potential_evaluates Examples.stub_compute_energy Examples.legacy0 Examples.param0).
  vm_compute. reflexivity.
Defined.

(** ** More on [torsion_energy] *)

Section EnergyMore.
Import Model.

Implicit Types (self : TorsionFitModel) (values : gmap string value) (mol frag : fragment).

Lemma last_char_app (s t : string) : t ≠ EmptyString → last_char (s +:+ t) = last_char t.
Proof.
  intros Ht. induction s as [|a s IH]; [done|].
  change (String a s +:+ t)%string with (String a (s +:+ t)). simpl.
  rewrite IH. destruct (s +:+ t)%string eqn:Hst; [|done].
  destruct s; simpl in Hst; [done|discriminate].
Qed.

Lemma offset_name_last frag : last_char (offset_name frag) = Some "t"%char.
Proof. unfold offset_name. by rewrite last_char_app. Qed.

Lemma K_name_last (tn : string) : last_char (K_name tn) = Some "K"%char.
Proof. unfold K_name. by rewrite last_char_app. Qed.

Lemma bitstring_name_last (tn : string) : last_char (bitstring_name tn) = Some "g"%char.
Proof. unfold bitstring_name. by rewrite last_char_app. Qed.

Lemma K_name_not_offset (tn : string) frag : offset_name frag ≠ K_name tn.
Proof.
  intros H. pose proof (offset_name_last frag) as H1. rewrite H, K_name_last in H1. done.
Qed.

Lemma bitstring_name_not_offset (tn : string) frag : offset_name frag ≠ bitstring_name tn.
Proof.
  intros H. pose proof (offset_name_last frag) as H1.
  rewrite H, bitstring_name_last in H1. done.
Qed.

Lemma for_each_ext {S A} (body1 body2 : S → A → result S) (xs : list A) (s : S) :
  (∀ s x, body1 s x = body2 s x) → for_each body1 xs s = for_each body2 xs s.
Proof.
  intros H. revert s. induction xs as [|x xs IH]; intros s; simpl; [done|].
  rewrite H. destruct (body2 s x); simpl; [apply IH|done].
Qed.

(** An element on which the body fails from every state makes the loop fail. *)
Lemma for_each_fails {S A} (body : S → A → result S) (xs : list A) (x : A) :
  x ∈ xs → (∀ s, ∃ e, body s x = Err e) → ∀ s, ∃ e, for_each body xs s = Err e.
Proof.
  intros Hx Hfail. induction xs as [|y xs IH]; intros s.
  - by apply elem_of_nil in Hx.
  - simpl. apply elem_of_cons in Hx as [<-|Hx].
    + destruct (Hfail s) as [e ->]. simpl. eauto.
    + destruct (body s y) as [s1|e]; simpl; [by apply IH|eauto].
Qed.

Section OffsetValue.
Variables (self : TorsionFitModel) (values : gmap string value) (frag : fragment) (x y : Q).

Lemma force_constants_offset_value (name : string) :
  force_constants self (<[offset_name frag := VFloat x]> values) name
  = force_constants self (<[offset_name frag := VFloat y]> values) name.
Proof.
  unfold force_constants, getitem.
  rewrite !(lookup_insert_ne _ (offset_name frag) (K_name name))
    by apply K_name_not_offset.
  rewrite !(lookup_insert_ne _ (offset_name frag) (bitstring_name name))
    by apply bitstring_name_not_offset.
  done.
Qed.

Lemma fourier_sum_offset_value mol cosines_i :
  fourier_sum self (<[offset_name frag := VFloat x]> values) mol cosines_i
  = fourier_sum self (<[offset_name frag := VFloat y]> values) mol cosines_i.
Proof.
  unfold fourier_sum. apply for_each_ext. intros s [t basis].
  by rewrite force_constants_offset_value.
Qed.

Lemma torsion_energy_step_offset_value mm imol :
  torsion_energy_step self (<[offset_name frag := VFloat x]> values) mm imol
  = torsion_energy_step self (<[offset_name frag := VFloat y]> values) mm imol.
Proof.
  destruct imol as [i mol]. unfold torsion_energy_step.
  destruct (py_index (cosines self) i) as [cosines_i|]; simpl; [|done].
  rewrite fourier_sum_offset_value.
  destruct (fourier_sum self _ mol cosines_i) as [Fourier_sum|]; simpl; [|done].
  destruct (py_min Fourier_sum) as [lowest|]; simpl; [|done].
  unfold getitem. destruct (decide (offset_name frag = offset_name mol)) as [<-|Hne].
  - by rewrite !lookup_insert_eq.
  - by rewrite !lookup_insert_ne.
Qed.

End OffsetValue.

(** X12: the vector [torsion_energy] returns does not depend on the value of
    any fragment's offset latent: evaluations that differ only in the value
    of an offset return the same result. *)
Theorem torsion_energy_ignores_offset_value self values frag (x y : Q) :
  torsion_energy self (<[offset_name frag := VFloat x]> values)
  = torsion_energy self (<[offset_name frag := VFloat y]> values).
Proof.
  unfold torsion_energy. apply for_each_ext. intros mm imol.
  apply torsion_energy_step_offset_value.
Qed.

Lemma elem_of_enumerate {A} (l : list A) (a : A) :
  a ∈ l → ∃ i, (i, a) ∈ enumerate l.
Proof.
  intros Ha. apply list_elem_of_lookup in Ha as [i Hi]. exists (Z.of_nat i).
  unfold enumerate. by apply (elem_of_lookup_imap_2 (λ i x, (Z.of_nat i, x))).
Qed.

(** X13: [torsion_energy] does read the offset latents: when the latent
    values hold no offset for one of the fragments, the evaluation raises. *)
Theorem torsion_energy_needs_offset self values frag :
  frag ∈ frags self → values !! offset_name frag = None →
  ∃ e, torsion_energy self values = Err e.
Proof.
  intros Hfrag Hnone. apply elem_of_enumerate in Hfrag as [i Hi].
  unfold torsion_energy. apply (for_each_fails _ _ _ Hi). intros mm.
  unfold torsion_energy_step.
  destruct (py_index (cosines self) i) as [cosines_i|]; simpl; [|eauto].
  destruct (fourier_sum self values frag cosines_i) as [Fourier_sum|]; simpl; [|eauto].
  destruct (py_min Fourier_sum) as [lowest|]; simpl; [|eauto].
  unfold getitem. rewrite Hnone. simpl. eauto.
Qed.

Lemma vec_add_length (a b r : list Q) : vec_add a b = Ok r → length r = length a.
Proof.
  revert b r. induction a as [|x a IH]; intros [|y b] r H; simpl in H; try done.
  - by injection H as <-.
  - apply bind_Ok in H as (r' & Hr' & [= <-]). simpl. f_equal. by eapply IH.
Qed.

Lemma fourier_sum_length self values mol cosines_i v :
  fourier_sum self values mol cosines_i = Ok v → length v = n_frames mol.
Proof.
  unfold fourier_sum.
  apply (for_each_invariant (λ v : list Q, length v = n_frames mol)).
  - intros s [t basis] s' _ Hs Hstep.
    apply bind_Ok in Hstep as (K & _ & Hstep).
    apply bind_Ok in Hstep as (c & _ & Hstep).
    apply vec_add_length in Hstep. congruence.
  - apply length_replicate.
Qed.

Lemma py_min_Ok (a : list Q) (m : Q) : py_min a = Ok m → a ≠ [].
Proof. by destruct a. Qed.

Lemma torsion_energy_step_length self values mm i mol mm' :
  torsion_energy_step self values mm (i, mol) = Ok mm' →
  length mm' = (length mm + n_frames mol)%nat ∧ n_frames mol ≠ 0%nat.
Proof.
  unfold torsion_energy_step. intros H.
  apply bind_Ok in H as (cosines_i & _ & H).
  apply bind_Ok in H as (Fourier_sum & Hsum & H).
  apply bind_Ok in H as (lowest & Hmin & H).
  apply bind_Ok in H as (offset & _ & [= <-]).
  apply fourier_sum_length in Hsum. apply py_min_Ok in Hmin.
  rewrite length_app, Hsum. split; [done|].
  intros Hzero. rewrite Hzero in Hsum. by destruct Fourier_sum.
Qed.

Lemma torsion_energy_loop_length self values (ims : list (Z * fragment)) mm e :
  for_each (torsion_energy_step self values) ims mm = Ok e →
  length e = (length mm + sum_list (n_frames <$> ims.*2))%nat ∧
  Forall (λ mol, n_frames mol ≠ 0%nat) ims.*2.
Proof.
  revert mm. induction ims as [|[i mol] ims IH]; intros mm H; simpl in H.
  - injection H as <-. simpl. split; [lia|constructor].
  - apply bind_Ok in H as (mm1 & Hstep & Hrest).
    apply torsion_energy_step_length in Hstep as [Hlen Hpos].
    destruct (IH _ Hrest) as [Hlen' Hall]. csimpl. split; [lia|by constructor].
Qed.

Lemma imap_pair_snd {A} (g : nat → Z) (l : list A) : (imap (λ i x, (g i, x)) l).*2 = l.
Proof.
  revert g. induction l as [|a l IH]; intros g; [done|].
  rewrite imap_cons. csimpl. f_equal. apply (IH (g ∘ S)).
Qed.

Lemma enumerate_snd {A} (l : list A) : (enumerate l).*2 = l.
Proof. apply imap_pair_snd. Qed.

(** X14: an evaluation of [torsion_energy] that returns gives one entry per
    frame: the length of the vector is the sum of the fragments' [n_frames],
    and every fragment has at least one frame. *)
Theorem torsion_energy_length self values e :
  torsion_energy self values = Ok e →
  length e = sum_list (n_frames <$> frags self) ∧
  Forall (λ mol, n_frames mol ≠ 0%nat) (frags self).
Proof.
  unfold torsion_energy. intros H. apply torsion_energy_loop_length in H.
  by rewrite enumerate_snd in H.
Qed.

(** X15: a fragment without frames makes [torsion_energy] raise: [min] of
    its empty accumulator has no value. *)
Theorem torsion_energy_no_frames self values frag :
  frag ∈ frags self → n_frames frag = 0%nat →
  ∃ e, torsion_energy self values = Err e.
Proof.
  intros Hfrag Hzero. destruct (torsion_energy self values) as [e|err] eqn:H; [|eauto].
  apply torsion_energy_length in H as [_ Hall]. rewrite Forall_forall in Hall.
  by destruct (Hall frag Hfrag).
Qed.

(** The product of six force constants with a six-entry mask. *)
Lemma vec_mul_mask_6 (k0 k1 k2 k3 k4 k5 : Q) (m0 m1 m2 m3 m4 m5 : Z) :
  Bitmask.vec_mul_mask [k0; k1; k2; k3; k4; k5] [m0; m1; m2; m3; m4; m5]
  = Ok [k0 * inject_Z m0; k1 * inject_Z m1; k2 * inject_Z m2;
        k3 * inject_Z m3; k4 * inject_Z m4; k5 * inject_Z m5]%Q.
Proof. reflexivity. Qed.

(** X16: with reversible jump on and the table of the constructor, a
    bitstring [b] in [0, 63] multiplies component [i] of the six force
    constants by bit [5 - i] of [b]: the most significant of the six bits
    governs the first component (multiplicity 1), the least significant the
    last (multiplicity 6). *)
Theorem force_constants_masked self values (name : string)
    (k0 k1 k2 k3 k4 k5 : Q) (b : Z) :
  rj self = true →
  bitmasks self = Bitmask.bitmasks →
  values !! K_name name = Some (VVec [k0; k1; k2; k3; k4; k5]) →
  values !! bitstring_name name = Some (VInt b) →
  0 ≤ b < 64 →
  force_constants self values name
  = Ok [k0 * inject_Z (Bitmask.bit b 5); k1 * inject_Z (Bitmask.bit b 4);
        k2 * inject_Z (Bitmask.bit b 3); k3 * inject_Z (Bitmask.bit b 2);
        k4 * inject_Z (Bitmask.bit b 1); k5 * inject_Z (Bitmask.bit b 0)]%Q.
Proof.
  intros Hrj Htable HK Hb Hrange. unfold force_constants, getitem.
  rewrite Hrj, HK, Hb, Htable. simpl. rewrite (bitmasks_lookup b Hrange). simpl.
  apply vec_mul_mask_6.
Qed.

Lemma bitmasks_length : length Bitmask.bitmasks = 64%nat.
Proof. reflexivity. Qed.

(** X17: the bitstring indexes the table as a Python list: a value of 64 or
    more, or below -64, raises [IndexError]. *)
Theorem force_constants_index_error self values (name : string) (K : list Q) (b : Z) :
  rj self = true →
  bitmasks self = Bitmask.bitmasks →
  values !! K_name name = Some (VVec K) →
  values !! bitstring_name name = Some (VInt b) →
  64 ≤ b ∨ b < -64 →
  force_constants self values name = Err IndexError.
Proof.
  intros Hrj Htable HK Hb Hout. unfold force_constants, getitem.
  rewrite Hrj, HK, Hb, Htable. simpl. unfold py_index. rewrite bitmasks_length.
  destruct (b <? 0) eqn:Hneg.
  - destruct (Z.ltb_spec (b + Z.of_nat 64) 0); [done|lia].
  - destruct (Z.ltb_spec b 0); [done|]. simpl.
    destruct (Z.leb_spec (Z.of_nat 64) b); [done|lia].
Qed.

(** X18: a negative bitstring from -64 to -1 raises nothing: it counts from
    the end of the table and selects the row of [b + 64], so that -1 keeps
    all six force constants. *)
Theorem force_constants_negative_index self values (name : string) (K : list Q) (b : Z) :
  rj self = true →
  bitmasks self = Bitmask.bitmasks →
  values !! K_name name = Some (VVec K) →
  values !! bitstring_name name = Some (VInt b) →
  -64 ≤ b < 0 →
  force_constants self values name
  = force_constants self (<[bitstring_name name := VInt (b + 64)]> values) name.
Proof.
  intros Hrj Htable HK Hb Hin. unfold force_constants, getitem.
  rewrite Hrj, HK, Hb, Htable. simpl.
  assert (bitstring_name name ≠ K_name name) as Hne.
  { intros H. pose proof (bitstring_name_last name) as H1.
    rewrite H, K_name_last in H1. done. }
  rewrite (lookup_insert_ne _ (bitstring_name name) (K_name name)) by done.
  rewrite HK, lookup_insert_eq. simpl.
  f_equal. unfold py_index. rewrite bitmasks_length.
  destruct (Z.ltb_spec b 0); [|lia].
  destruct (Z.ltb_spec (b + 64) 0); [lia|]. done.
Qed.

End EnergyMore.

(** *** Instances *)

Lemma frag0_in_model0 : Examples.frag0 ∈ Model.frags (Examples.model0 false).
Proof. change (Examples.frag0 ∈ [Examples.frag0]). left. Qed.

Lemma torsion_energy_needs_offset_witness :
  ∃ e, Model.torsion_energy (Examples.model0 false) Examples.values_no_offset = Err e.
Proof.
  apply (torsion_energy_needs_offset (Examples.model0 false) Examples.values_no_offset
           Examples.frag0).
  - exact frag0_in_model0.
  - vm_compute. reflexivity.
Defined.

Lemma torsion_energy_length_witness :
  length [4; 2; 0; 2; 4]%Q = sum_list (Model.n_frames <$> Model.frags (Examples.model0 false)) ∧
  Forall (λ mol, Model.n_frames mol ≠ 0%nat) (Model.frags (Examples.model0 false)).
Proof.
  apply (torsion_energy_length (Examples.model0 false) Examples.values0). reflexivity.
Defined.

Lemma frag_empty_in_model_empty : Examples.frag_empty ∈ Model.frags Examples.model_empty.
Proof. change (Examples.frag_empty ∈ [Examples.frag_empty]). left. Qed.

Lemma torsion_energy_no_frames_witness :
  ∃ e, Model.torsion_energy Examples.model_empty ∅ = Err e.
Proof.
  apply (torsion_energy_no_frames Examples.model_empty ∅ Examples.frag_empty).
  - exact frag_empty_in_model_empty.
  - reflexivity.
Defined.

Lemma force_constants_masked_witness :
  Model.force_constants (Examples.model0 true) Examples.values1 (torsion_name Examples.t0)
  = Ok [7 * inject_Z (Bitmask.bit 3 5); 8 * inject_Z (Bitmask.bit 3 4);
        9 * inject_Z (Bitmask.bit 3 3); 10 * inject_Z (Bitmask.bit 3 2);
        11 * inject_Z (Bitmask.bit 3 1); 12 * inject_Z (Bitmask.bit 3 0)]%Q.
Proof.
  apply (force_constants_masked (Examples.model0 true) Examples.values1
           (torsion_name Examples.t0) 7 8 9 10 11 12 3).
  - reflexivity.
  - reflexivity.
  - vm_compute. reflexivity.
  - vm_compute. reflexivity.
  - lia.
Defined.

Lemma force_constants_index_error_witness :
  Model.force_constants (Examples.model0 true)
    (<[Model.bitstring_name (torsion_name Examples.t0) := VInt 64]> Examples.values1)
    (torsion_name Examples.t0)
  = Err IndexError.
Proof.
  apply (force_constants_index_error (Examples.model0 true) _ (torsion_name Examples.t0)
           [7; 8; 9; 10; 11; 12]%Q 64).
  - reflexivity.
  - reflexivity.
  - vm_compute. reflexivity.
  - vm_compute. reflexivity.
  - lia.
Defined.

Lemma force_constants_negative_index_witness :
  Model.force_constants (Examples.model0 true)
    (<[Model.bitstring_name (torsion_name Examples.t0) := VInt (-1)]> Examples.values1)
    (torsion_name Examples.t0)
  = Model.force_constants (Examples.model0 true)
      (<[Model.bitstring_name (torsion_name Examples.t0) := VInt (-1 + 64)]>
         (<[Model.bitstring_name (torsion_name Examples.t0) := VInt (-1)]> Examples.values1))
      (torsion_name Examples.t0).
Proof.
  apply (force_constants_negative_index (Examples.model0 true) _ (torsion_name Examples.t0)
           [7; 8; 9; 10; 11; 12]%Q (-1)).
  - reflexivity.
  - reflexivity.
  - vm_compute. reflexivity.
  - vm_compute. reflexivity.
  - lia.
Defined.

(** ** The constructor of [model.py] *)

Section InitFacts.
Import Model.

Variables (np_cos np_log : Q → Q)
  (to_optimize : ParameterSet → option string → result (list torsion))
  (set_phase_0 : list torsion → ParameterSet → result ParameterSet)
  (random : node → value).

Local Notation init := (Model.init np_cos np_log to_optimize set_phase_0 random) (only parsing).


(** *** Keys *)

Lemma late_key_last (key : string) :
  key ∈ late_keys → last_char key ∈ [Some "a"%char; Some "n"%char; Some "y"%char; Some "t"%char].
Proof.
  unfold late_keys. rewrite !elem_of_cons, elem_of_nil.
  intros [->|[->|[->|[->|[->|[]]]]]]; apply (bool_decide_unpack _); by vm_compute.
Qed.

Lemma bitstring_name_not_late (tn : string) : bitstring_name tn ∉ late_keys.
Proof.
  intros H. apply late_key_last in H. rewrite bitstring_name_last in H.
  rewrite !elem_of_cons, elem_of_nil in H. naive_solver.
Qed.

(** What lines 130-136 and 179-182 leave under a key they do not write. *)
Lemma lookup_after_late (params : gmap string node) (key : string) (d o : node) :
  key ∉ late_keys →
  (<["qm_fit" := o]> (<["torsion_energy" := d]> (add_noise np_log params))) !! key
  = params !! key.
Proof.
  unfold late_keys, add_noise. rewrite !not_elem_of_cons. intros (H1 & H2 & H3 & H4 & H5 & _).
  by rewrite !lookup_insert_ne.
Qed.

(** *** The bitstring latents *)

Lemma add_torsion_bitstrings (ps : list torsion) (acc acc' : gmap string node * gmap string Z) :
  foldl (add_torsion np_log) acc ps = acc' →
  (∀ tn v, acc.2 !! tn = Some v → v = 0) →
  (∀ tn v, acc'.2 !! tn = Some v → v = 0) ∧
  (∀ tn, is_Some (acc.2 !! tn) → is_Some (acc'.2 !! tn)) ∧
  (∀ p, p ∈ ps → is_Some (acc'.2 !! torsion_name p)).
Proof.
  revert acc. induction ps as [|q ps IH]; intros [params mb] Hrun Hzero; simpl in Hrun.
  - subst acc'. split; [done|]. split; [done|]. intros p Hp. by apply elem_of_nil in Hp.
  - destruct (IH _ Hrun) as (Hz & Hmono & Hdom).
    { simpl. intros tn v. destruct (mb !! torsion_name q) eqn:Hq; [apply Hzero|].
      destruct (decide (tn = torsion_name q)) as [->|Hne].
      - rewrite lookup_insert_eq. by intros [= <-].
      - rewrite lookup_insert_ne by done. apply Hzero. }
    split; [done|]. split.
    + intros tn Htn. apply Hmono. simpl in *.
      destruct (mb !! torsion_name q) eqn:Hq; [done|].
      destruct (decide (tn = torsion_name q)) as [->|Hne].
      * by rewrite lookup_insert_eq.
      * by rewrite lookup_insert_ne.
    + intros p Hp. apply elem_of_cons in Hp as [->|Hp]; [|by apply Hdom].
      apply Hmono. simpl. destruct (mb !! torsion_name q) eqn:Hq; [by rewrite Hq|].
      by rewrite lookup_insert_eq.
Qed.

Lemma add_bitstrings_lookup (mb : gmap string Z) (params : gmap string node) (tn : string) :
  (∀ tn v, mb !! tn = Some v → v = 0) → is_Some (mb !! tn) →
  add_bitstrings mb params !! bitstring_name tn
  = Some (DiscreteUniform (bitstring_name tn) 0 63 (VInt 0)).
Proof.
  unfold add_bitstrings. revert tn.
  apply (map_fold_weak_ind
           (λ (r : gmap string node) (m : gmap string Z),
              ∀ tn, (∀ tn v, m !! tn = Some v → v = 0) → is_Some (m !! tn) →
                    r !! bitstring_name tn
                    = Some (DiscreteUniform (bitstring_name tn) 0 63 (VInt 0)))).
  - intros tn _ [v Hv]. by rewrite lookup_empty in Hv.
  - intros tn1 v m r Hfresh IH tn Hzero Htn.
    assert (v = 0) as -> by (apply (Hzero tn1); by rewrite lookup_insert_eq).
    destruct (decide (bitstring_name tn1 = bitstring_name tn)) as [Heq|Hne].
    + rewrite Heq, lookup_insert_eq. done.
    + rewrite lookup_insert_ne by done. apply IH.
      * intros tn2 v2 H2. apply (Hzero tn2). rewrite lookup_insert_ne; [done|].
        intros ->. by rewrite Hfresh in H2.
      * rewrite lookup_insert_ne in Htn; [done|]. by intros ->.
Qed.

(** X20: with reversible jump on and [init_random] off, the constructor of
    [model.py] gives the bitstring latent of every optimized torsion the
    initial value 0, whatever terms the parameter container holds. *)
Theorem init_bitstring_zero param frags stream platform param_to_opt
    (sample_n5 continuous_phase sample_phase : bool) c p :
  init param frags stream platform param_to_opt true sample_n5 continuous_phase sample_phase
    false = Ok c →
  p ∈ parameters_to_optimize (c_model c) →
  pymc_parameters (c_model c) !! bitstring_name (torsion_name p)
  = Some (DiscreteUniform (bitstring_name (torsion_name p)) 0 63 (VInt 0)).
Proof.
  unfold Model.init. intros H Hp.
  apply bind_Ok in H as (pto & _ & H).
  destruct (negb sample_phase && continuous_phase); simpl in H.
  all: apply bind_Ok in H as (param' & _ & H).
  all: destruct (foldl (add_torsion np_log) _ pto) as [params mb] eqn:Hfold.
  all: injection H as <-; simpl in *.
  all: rewrite lookup_after_late by apply bitstring_name_not_late.
  all: destruct (add_torsion_bitstrings _ _ _ Hfold) as (Hz & _ & Hdom);
    [intros tn v Hv; simpl in Hv; by rewrite lookup_empty in Hv|].
  all: apply add_bitstrings_lookup; [exact Hz|by apply Hdom].
Qed.

(** *** Random initial values *)




End InitFacts.

(** *** Instances *)

Lemma constructed0_built (rj init_random : bool) :
  Model.init Examples.stub_cos Examples.stub_log Examples.stub_to_optimize_opt
    Examples.stub_set_phase_0 Examples.stub_random
    Examples.param0 (Model.Fragments [Examples.frag0]) None None None rj false false true
    init_random
  = Ok (Examples.constructed0 rj init_random).
Proof. by destruct rj, init_random; vm_compute. Qed.

Lemma t0_optimized_constructed0 (rj init_random : bool) :
  Examples.t0 ∈ Model.parameters_to_optimize (Model.c_model (Examples.constructed0 rj init_random)).
Proof.
  by destruct rj, init_random; change (Examples.t0 ∈ [Examples.t0]); left.
Qed.

Lemma init_bitstring_zero_witness :
  Model.pymc_parameters (Model.c_model (Examples.constructed0 true false))
    !! Model.bitstring_name (torsion_name Examples.t0)
  = Some (DiscreteUniform (Model.bitstring_name (torsion_name Examples.t0)) 0 63 (VInt 0)).
Proof.
  apply (init_bitstring_zero Examples.stub_cos Examples.stub_log Examples.stub_to_optimize_opt
           Examples.stub_set_phase_0 Examples.stub_random
           Examples.param0 (Model.Fragments [Examples.frag0]) None None None false false true).
  - exact (constructed0_built true false).
  - exact (t0_optimized_constructed0 true false).
Defined.


(** The run behind the witness: the offset, the force constants and the
    bitstring hold the drawn values, the per-torsion log-sigma its default. *)
Lemma constructed0_random_values :
  node_value <$> Model.pymc_parameters (Model.c_model (Examples.constructed0 true true))
                   !! "PRL_offset"%string = Some (Some (VFloat 1)) ∧
  node_value <$> Model.pymc_parameters (Model.c_model (Examples.constructed0 true true))
                   !! "HGA2_CG321_CG331_HGA3_K"%string = Some (Some (VVec (replicate 6 1%Q))) ∧
  node_value <$> Model.pymc_parameters (Model.c_model (Examples.constructed0 true true))
                   !! "HGA2_CG321_CG331_HGA3_multiplicity_bitstring"%string
  = Some (Some (VInt 1)) ∧
  node_value <$> Model.pymc_parameters (Model.c_model (Examples.constructed0 true true))
                   !! "log_sigma_k_HGA2_CG321_CG331_HGA3"%string
  = Some (Some (VVec (replicate 6 0%Q))).
Proof. repeat split; by vm_compute. Qed.
